(** * PiNN: the [pinn_train] driver and its reference-data generator

    A shallow embedding of [pinn/trainer.py] (the orchestrator [trainner]
    and the command-line entry point [main]) and of the data generator
    [_get_lj_data] of [tests/test_potential.py].

    Python objects are modelled as they are used by the source: scalars are
    immediate values, dictionaries and lists live in an object store and are
    referred to by address, so that in-place mutation and sharing are
    visible.  Calls into TensorFlow, PyYAML, ASE and the rest of the [pinn]
    package are oracles; every call the orchestrator makes is recorded,
    with its arguments, in a call log. *)

From stdpp Require Import base option list numbers.
From Stdlib Require Import ZArith QArith Qcanon String Ascii.

Local Open Scope Z_scope.
Local Open Scope string_scope.
Local Open Scope list_scope.

(** ** Python values and the object store *)

Abbreviation addr := nat.

(** Dictionary keys: the parameter files use strings (field names) and
    integers (atomic numbers). *)
Inductive key :=
| KStr (s : string)
| KInt (z : Z).

(** Immediate values.  A finite binary64 is a rational, so [VFloat]
    carries a rational in lowest terms; rounding is not modelled.  [VObj]
    is a function or class object known by its qualified name. *)
Inductive pyval :=
| VNone
| VBool (b : bool)
| VInt (z : Z)
| VFloat (q : Qc)
| VStr (s : string)
| VRef (a : addr)
| VObj (name : string).

(** Mutable containers.  A dictionary keeps its insertion order. *)
Inductive obj :=
| ODict (d : list (key * pyval))
| OList (l : list pyval).

Abbreviation heap := (list obj).

Inductive exn :=
| KeyError (k : key)
| TypeError
| AttributeError (attr : string)
| SystemExit (code : Z)
| OtherError (name : string).

Inductive result (A : Type) :=
| Ok (a : A)
| Raise (e : exn).
Arguments Ok {A} a.
Arguments Raise {A} e.

#[global] Instance result_ret : MRet result := fun A a => Ok a.
#[global] Instance result_bind : MBind result := fun A B f r =>
  match r with
  | Ok a => f a
  | Raise e => Raise e
  end.

Definition key_eqb (k1 k2 : key) : bool :=
  match k1, k2 with
  | KStr s1, KStr s2 => String.eqb s1 s2
  | KInt z1, KInt z2 => Z.eqb z1 z2
  | _, _ => false
  end.

Definition key_val (k : key) : pyval :=
  match k with
  | KStr s => VStr s
  | KInt z => VInt z
  end.

(** [d[k]] on the entries of a dictionary. *)
Fixpoint dict_get (k : key) (d : list (key * pyval)) : option pyval :=
  match d with
  | [] => None
  | (k', v) :: d' => if key_eqb k k' then Some v else dict_get k d'
  end.

(** [d[k] = v]: an existing key keeps its place, a new key goes last. *)
Fixpoint dict_set (k : key) (v : pyval) (d : list (key * pyval))
  : list (key * pyval) :=
  match d with
  | [] => [(k, v)]
  | (k', v') :: d' =>
      if key_eqb k k' then (k', v) :: d' else (k', v') :: dict_set k v d'
  end.

(** [list(d.keys())]. *)
Definition dict_keys (d : list (key * pyval)) : list key := map fst d.

(** [needle in haystack] on strings. *)
Fixpoint str_contains (needle haystack : string) : bool :=
  String.prefix needle haystack ||
  match haystack with
  | EmptyString => false
  | String _ rest => str_contains needle rest
  end.

Definition is_str (s : string) (v : pyval) : bool :=
  match v with
  | VStr s' => String.eqb s s'
  | _ => false
  end.

(** Truth value of an object, as tested by [if] and [and]. *)
Definition py_truthy (h : heap) (v : pyval) : bool :=
  match v with
  | VNone => false
  | VBool b => b
  | VInt z => negb (z =? 0)%Z
  | VFloat q => negb (Qc_eq_bool q 0)
  | VStr s => negb (String.eqb s "")
  | VRef a =>
      match h !! a with
      | Some (ODict []) | Some (OList []) => false
      | _ => true
      end
  | VObj _ => true
  end.

(** [o[k]] for a string subscript [k]. *)
Definition py_getitem (h : heap) (o : pyval) (k : string) : result pyval :=
  match o with
  | VRef a =>
      match h !! a with
      | Some (ODict d) =>
          match dict_get (KStr k) d with
          | Some v => Ok v
          | None => Raise (KeyError (KStr k))
          end
      | _ => Raise TypeError
      end
  | _ => Raise TypeError
  end.

(** [o[k] = v] for a string subscript [k]; the object at [o] is updated
    in place. *)
Definition py_setitem (h : heap) (o : pyval) (k : string) (v : pyval)
  : result heap :=
  match o with
  | VRef a =>
      match h !! a with
      | Some (ODict d) => Ok (<[a := ODict (dict_set (KStr k) v d)]> h)
      | _ => Raise TypeError
      end
  | _ => Raise TypeError
  end.

(** [k in o] for a string [k]. *)
Definition py_contains (h : heap) (k : string) (o : pyval) : result bool :=
  match o with
  | VStr s => Ok (str_contains k s)
  | VRef a =>
      match h !! a with
      | Some (ODict d) => Ok (bool_decide (is_Some (dict_get (KStr k) d)))
      | Some (OList l) => Ok (existsb (is_str k) l)
      | None => Raise TypeError
      end
  | _ => Raise TypeError
  end.

(** [o.keys()], then [list(...)] of it. *)
Definition py_keys (h : heap) (o : pyval) : result (list key) :=
  match o with
  | VRef a =>
      match h !! a with
      | Some (ODict d) => Ok (dict_keys d)
      | _ => Raise (AttributeError "keys")
      end
  | _ => Raise (AttributeError "keys")
  end.

(** The entry [k] of the dictionary stored at [a], if there is one. *)
Definition field (h : heap) (a : addr) (k : key) : option pyval :=
  match h !! a with
  | Some (ODict d) => dict_get k d
  | _ => None
  end.

(** ** The standard library's [argparse], for parsers made of options

    The part of [argparse] that [main] relies on: long options given as
    [--name value] or [--name=value], unique prefixes of option names,
    the [-h]/[--help] action, the [--] separator, required options,
    defaults, and conversion of the argument string by the option's
    [type].  An argument string is a sequence of code points below 256.
    A usage error ends the process with status 2, the help action with
    status 0.  The values of an option are its argument strings without
    the first [--] among them: an option given as [--name=--] has no
    argument string left, and what is stored for it is a new empty
    list. *)

Module Argparse.

(** The callables used as [type=]. *)
Inductive arg_type := TStr | TInt | TBool.

Inductive action_kind :=
| Store   (* one argument, stored under [dest] *)
| Help.   (* no argument, prints the help and exits *)

Record action := Action {
  option_strings : list string;
  dest : string;
  kind : action_kind;
  type_ : arg_type;
  required : bool;
  default : pyval
}.

Definition is_digit (c : ascii) : bool :=
  (48 <=? nat_of_ascii c)%nat && (nat_of_ascii c <=? 57)%nat.

Definition digit_value (c : ascii) : Z := Z.of_nat (nat_of_ascii c) - 48.

(** The whitespace that [int] skips around a number: tab to carriage
    return, the space, and among the other code points below 256 the
    next-line control and the no-break space.  The separators 28 to 31
    are not skipped. *)
Definition is_space (c : ascii) : bool :=
  let n := nat_of_ascii c in
  ((9 <=? n)%nat && (n <=? 13)%nat) || (n =? 32)%nat || (n =? 133)%nat ||
  (n =? 160)%nat.

Fixpoint lstrip (s : string) : string :=
  match s with
  | String c rest => if is_space c then lstrip rest else s
  | EmptyString => EmptyString
  end.

Fixpoint rstrip (s : string) : string :=
  match s with
  | String c rest =>
      match rstrip rest with
      | EmptyString => if is_space c then EmptyString else String c EmptyString
      | rest' => String c rest'
      end
  | EmptyString => EmptyString
  end.

(** Decimal digits, where single underscores may separate digits. *)
Fixpoint int_digits (s : string) (acc : Z) (after_digit : bool) : option Z :=
  match s with
  | EmptyString => if after_digit then Some acc else None
  | String c rest =>
      if is_digit c then int_digits rest (10 * acc + digit_value c) true
      else if Ascii.eqb c "_" && after_digit then int_digits rest acc false
      else None
  end.

Fixpoint count_digits (s : string) : Z :=
  match s with
  | EmptyString => 0
  | String c rest => (if is_digit c then 1 else 0) + count_digits rest
  end.

(** The interpreter's default limit on the digits of a decimal string. *)
Definition int_max_str_digits : Z := 4300.

(** An unsigned decimal literal within the limit. *)
Definition int_literal (s : string) : option Z :=
  match int_digits s 0 false with
  | Some z =>
      if (count_digits s <=? int_max_str_digits)%Z then Some z else None
  | None => None
  end.

(** [int(s)]; [None] stands for [ValueError]. *)
Definition py_int (s : string) : option Z :=
  match rstrip (lstrip s) with
  | String "-" rest => Z.opp <$> int_literal rest
  | String "+" rest => int_literal rest
  | t => int_literal t
  end.

(** [bool(s)]: a string is true unless it is empty. *)
Definition py_bool (s : string) : bool := negb (String.eqb s "").

(** [type_func(arg_string)] *)
Definition convert (t : arg_type) (arg_string : string) : result pyval :=
  match t with
  | TStr => Ok (VStr arg_string)
  | TInt =>
      match py_int arg_string with
      | Some z => Ok (VInt z)
      | None => Raise (SystemExit 2)
      end
  | TBool => Ok (VBool (py_bool arg_string))
  end.

(** [s.split('=', 1)] when [s] contains ['=']. *)
Fixpoint split_eq (s : string) : option (string * string) :=
  match s with
  | EmptyString => None
  | String c rest =>
      if Ascii.eqb c "=" then Some (EmptyString, rest)
      else
        match split_eq rest with
        | Some (l, r) => Some (String c l, r)
        | None => None
        end
  end.

Fixpoint replace_dash (s : string) : string :=
  match s with
  | EmptyString => EmptyString
  | String c rest =>
      String (if Ascii.eqb c "-" then "_"%char else c) (replace_dash rest)
  end.

Fixpoint lstrip_dash (s : string) : string :=
  match s with
  | String c rest => if Ascii.eqb c "-" then lstrip_dash rest else s
  | EmptyString => EmptyString
  end.

(** The attribute name derived from a long option. *)
Definition dest_of (flag : string) : string := replace_dash (lstrip_dash flag).

(** [parser.add_argument(flag, type=..., required=..., default=...)] *)
Definition add_argument (flag : string) (t : arg_type) (req : bool)
    (dflt : pyval) : action :=
  {| option_strings := [flag]; dest := dest_of flag; kind := Store;
     type_ := t; required := req; default := dflt |}.

(** The help action every parser starts with. *)
Definition add_help : action :=
  {| option_strings := ["-h"; "--help"]; dest := "help"; kind := Help;
     type_ := TStr; required := false; default := VNone |}.

(** Option strings with their actions, in the order they were added. *)
Definition option_table (p : list action) : list (string * action) :=
  flat_map (fun a => map (fun o => (o, a)) (option_strings a)) p.

Fixpoint find_option (tbl : list (string * action)) (o : string)
  : option action :=
  match tbl with
  | [] => None
  | (o', a) :: tbl' => if String.eqb o o' then Some a else find_option tbl' o
  end.

Definition second_is_dash (s : string) : bool :=
  match s with
  | String _ (String c _) => Ascii.eqb c "-"
  | _ => false
  end.

Definition take2 (s : string) : string :=
  match s with
  | String a (String b _) => String a (String b EmptyString)
  | _ => s
  end.

Definition drop2 (s : string) : string :=
  match s with
  | String _ (String _ rest) => rest
  | _ => EmptyString
  end.

(** The prefixes of a string, shortest first. *)
Fixpoint prefixes (s : string) : list string :=
  match s with
  | EmptyString => [EmptyString]
  | String c rest => EmptyString :: map (String c) (prefixes rest)
  end.

(** The interpretations of an argument that is not itself an option
    string. *)
Definition _get_option_tuples (p : list action) (option_string : string)
  : list (option action * string * option string) :=
  if second_is_dash option_string then
    let '(option_prefix, explicit_arg) :=
      match split_eq option_string with
      | Some (l, r) => (l, Some r)
      | None => (option_string, None)
      end in
    flat_map (fun '(o, a) =>
                if String.prefix option_prefix o
                then [(Some a, o, explicit_arg)] else [])
             (option_table p)
  else
    flat_map (fun '(o, a) =>
                if String.eqb o (take2 option_string)
                then [(Some a, o, Some (drop2 option_string))]
                else if String.prefix option_string o
                then [(Some a, o, None)] else [])
             (option_table p).

Fixpoint all_digits (s : string) : bool :=
  match s with
  | EmptyString => true
  | String c rest => is_digit c && all_digits rest
  end.

(** Digits, then optionally a point and at least one digit; with
    [seen] telling whether a digit has been read. *)
Fixpoint number_tail (s : string) (seen : bool) : bool :=
  match s with
  | EmptyString => seen
  | String c rest =>
      if is_digit c then number_tail rest true
      else Ascii.eqb c "." &&
           negb (String.eqb rest EmptyString) && all_digits rest
  end.

(** A pattern's [$] also matches just before a final newline. *)
Fixpoint chomp (s : string) : string :=
  match s with
  | String c EmptyString => if Ascii.eqb c "010" then EmptyString else s
  | String c rest => String c (chomp rest)
  | EmptyString => EmptyString
  end.

(** The pattern [^-\d+$|^-\d*\.\d+$]. *)
Definition negative_number (s : string) : bool :=
  match chomp s with
  | String "-" rest => number_tail rest false
  | _ => false
  end.

Definition has_negative_number_optionals (p : list action) : bool :=
  existsb (fun '(o, _) => negative_number o) (option_table p).

Fixpoint has_space (s : string) : bool :=
  match s with
  | EmptyString => false
  | String c rest => Ascii.eqb c " " || has_space rest
  end.

(** How one argument string is read: as an argument, or as an option
    with its action (if any), its option string and the argument
    attached to it (if any). *)
Definition _parse_optional (p : list action) (arg_string : string)
  : result (option (option action * string * option string)) :=
  match arg_string with
  | EmptyString => Ok None
  | String c _ =>
      if negb (Ascii.eqb c "-") then Ok None
      else
        match find_option (option_table p) arg_string with
        | Some a => Ok (Some (Some a, arg_string, None))
        | None =>
            if (String.length arg_string =? 1)%nat then Ok None
            else
              let exact :=
                match split_eq arg_string with
                | Some (o, e) =>
                    match find_option (option_table p) o with
                    | Some a => Some (Some a, o, Some e)
                    | None => None
                    end
                | None => None
                end in
              match exact with
              | Some t => Ok (Some t)
              | None =>
                  match _get_option_tuples p arg_string with
                  | _ :: _ :: _ => Raise (SystemExit 2)
                  | [t] => Ok (Some t)
                  | [] =>
                      if negative_number arg_string &&
                         negb (has_negative_number_optionals p)
                      then Ok None
                      else if has_space arg_string then Ok None
                      else Ok (Some (None, arg_string, None))
                  end
              end
        end
  end.

Inductive arg_class :=
| Arg                       (* 'A' *)
| DashDash                  (* '-' : the separator *)
| Opt (a : option action) (option_string : string)
      (explicit_arg : option string).   (* 'O' *)

(** The class of an argument string, from how it was read. *)
Definition class_of (o : option (option action * string * option string))
  : arg_class :=
  match o with
  | None => Arg
  | Some (a, os, e) => Opt a os e
  end.

(** The token of the separator [--]. *)
Definition is_separator (t : string * arg_class) : Prop :=
  match t with
  | (_, DashDash) => True
  | _ => False
  end.

(** The tokens that no option takes: the separator and the unknown
    options. *)
Definition is_leftover (t : string * arg_class) : Prop :=
  match t with
  | (_, DashDash) | (_, Opt None _ _) => True
  | _ => False
  end.

(** The pattern of the command line; everything after [--] is an
    argument. *)
Fixpoint classify (p : list action) (arg_strings : list string)
  : result (list (string * arg_class)) :=
  match arg_strings with
  | [] => Ok []
  | arg_string :: rest =>
      if String.eqb arg_string "--" then
        Ok ((arg_string, DashDash) :: map (fun s => (s, Arg)) rest)
      else
        o ← _parse_optional p arg_string;
        toks ← classify p rest;
        Ok ((arg_string,
             match o with
             | None => Arg
             | Some (a, os, e) => Opt a os e
             end) :: toks)
  end.

(** The attributes of a [Namespace]. *)
Definition namespace := list (string * pyval).

Fixpoint setattr (ns : namespace) (name : string) (v : pyval) : namespace :=
  match ns with
  | [] => [(name, v)]
  | (n, v') :: ns' =>
      if String.eqb name n then (n, v) :: ns' else (n, v') :: setattr ns' name v
  end.

Fixpoint getattr (ns : namespace) (name : string) : result pyval :=
  match ns with
  | [] => Raise (AttributeError name)
  | (n, v) :: ns' => if String.eqb name n then Ok v else getattr ns' name
  end.

Record parse_state := ParseState {
  ps_namespace : namespace;
  ps_seen : list string;      (* first option string of the actions taken *)
  ps_extras : list string;
  ps_heap : heap              (* the store, with the lists made so far *)
}.

Definition action_name (a : action) : string :=
  match option_strings a with
  | o :: _ => o
  | [] => dest a
  end.

(** [_get_values(action, [arg_string])] for an option that takes one
    argument: the first [--] is removed from the argument strings; the
    one string that is left is converted, and when none is left the value
    is the list of the converted strings, a new empty list. *)
Definition _get_values (t : arg_type) (arg_string : string) (h : heap)
  : result (pyval * heap) :=
  if String.eqb arg_string "--" then Ok (VRef (List.length h), h ++ [OList []])
  else v ← convert t arg_string; Ok (v, h).

Definition take_action (a : action) (argument_strings : list string)
    (st : parse_state) : result parse_state :=
  match kind a, argument_strings with
  | Store, [arg_string] =>
      '(v, h) ← _get_values (type_ a) arg_string (ps_heap st);
      Ok {| ps_namespace := setattr (ps_namespace st) (dest a) v;
            ps_seen := action_name a :: ps_seen st;
            ps_extras := ps_extras st;
            ps_heap := h |}
  | Help, [] => Raise (SystemExit 0)
  | _, _ => Raise (SystemExit 2)
  end.

Fixpoint take_actions (l : list (action * list string)) (st : parse_state)
  : result parse_state :=
  match l with
  | [] => Ok st
  | (a, args) :: l' => st' ← take_action a args st; take_actions l' st'
  end.

(** Single-dash options written together: after the option [a], which
    takes no argument, the next character names a further option.  The
    result is the actions that are complete, and the action (if any) left
    without an attached argument. *)
Fixpoint cluster (tbl : list (string * action)) (a : action)
    (option_string explicit_arg : string)
  : result (list (action * list string) * option action) :=
  if second_is_dash option_string then Raise (SystemExit 2)
  else
    match explicit_arg with
    | EmptyString => Raise (SystemExit 2)
    | String c rest =>
        let option_string' := String "-" (String c EmptyString) in
        match find_option tbl option_string' with
        | None => Raise (SystemExit 2)
        | Some a' =>
            match rest with
            | EmptyString => Ok ([(a, [])], Some a')
            | _ =>
                match kind a' with
                | Store => Ok ([(a, []); (a', [rest])], None)
                | Help =>
                    '(l, pending) ← cluster tbl a' option_string' rest;
                    Ok ((a, []) :: l, pending)
                end
            end
        end
    end.

(** The actions selected by one option token, and the action (if any)
    that still needs the next argument string. *)
Definition resolve (p : list action) (a : action) (option_string : string)
    (explicit_arg : option string)
  : result (list (action * list string) * option action) :=
  match explicit_arg with
  | None =>
      match kind a with
      | Help => Ok ([(a, [])], None)
      | Store => Ok ([], Some a)
      end
  | Some e =>
      match kind a with
      | Store => Ok ([(a, [e])], None)
      | Help =>
          '(l, pending) ← cluster (option_table p) a option_string e;
          match pending with
          | None => Ok (l, None)
          | Some a' =>
              match kind a' with
              | Help => Ok (l ++ [(a', [])], None)
              | Store => Ok (l, Some a')
              end
          end
      end
  end.

(** One pass over the command line: options take their arguments and
    act, everything else is left over. *)
Fixpoint consume (p : list action) (toks : list (string * arg_class))
    (st : parse_state) : result parse_state :=
  match toks with
  | [] => Ok st
  | (s, Opt (Some a) o e) :: rest =>
      match resolve p a o e with
      | Raise x => Raise x
      | Ok (acts, None) =>
          st' ← take_actions acts st;
          consume p rest st'
      | Ok (acts, Some a') =>
          match rest with
          | (v, Arg) :: rest' =>
              st' ← take_actions (acts ++ [(a', [v])]) st;
              consume p rest' st'
          | _ => Raise (SystemExit 2)
          end
      end
  | (s, _) :: rest =>
      consume p rest
        {| ps_namespace := ps_namespace st;
           ps_seen := ps_seen st;
           ps_extras := ps_extras st ++ [s];
           ps_heap := ps_heap st |}
  end.

(** The namespace before parsing: every stored option at its default. *)
Definition defaults (p : list action) : namespace :=
  fold_left (fun ns a =>
               match kind a with
               | Store => setattr ns (dest a) (default a)
               | Help => ns
               end) p [].

Definition missing_required (p : list action) (seen : list string) : bool :=
  existsb (fun a => required a &&
                    negb (existsb (String.eqb (action_name a)) seen)) p.

(** [parser.parse_args(argv)] on the store [h]: the namespace, and the
    store with the lists the parser has made. *)
Definition parse_args (p : list action) (argv : list string) (h : heap)
  : result (namespace * heap) :=
  toks ← classify p argv;
  st ← consume p toks
         {| ps_namespace := defaults p; ps_seen := []; ps_extras := [];
            ps_heap := h |};
  if missing_required p (ps_seen st) then Raise (SystemExit 2)
  else
    match ps_extras st with
    | [] => Ok (ps_namespace st, ps_heap st)
    | _ => Raise (SystemExit 2)
    end.

End Argparse.

Import Argparse.

(** ** The command-line entry point: its parser *)

(** The parser built by [main]. *)
Definition parser : list action :=
  [ add_help;
    add_argument "--model-dir" TStr true VNone;
    add_argument "--params-file" TStr true VNone;
    add_argument "--train-data" TStr true VNone;
    add_argument "--eval-data" TStr true VNone;
    add_argument "--train-steps" TInt true VNone;
    add_argument "--eval-steps" TInt false (VInt 100);
    add_argument "--batch-size" TInt false VNone;
    add_argument "--preprocess" TBool false (VBool false);
    add_argument "--cache-data" TBool false (VBool true);
    add_argument "--shuffle-buffer" TInt false (VInt 100);
    add_argument "--regen-dress" TBool false (VBool true) ].

(** The argument string [s] is read as an option of [p] that stores to
    the attribute [d]: it is the option's name or an abbreviation of it,
    with or without an attached argument. *)
Definition selects (p : list action) (s d : string) : Prop :=
  ∃ a o e, _parse_optional p s = Ok (Some (Some a, o, e)) ∧ dest a = d.

(** The command line that gives every option once, in the order of the
    parser, each value attached to its option. *)
Definition full_argv (md pf td ed ts es bs pre cd sb rd : string)
  : list string :=
  [ String.append "--model-dir=" md; String.append "--params-file=" pf;
    String.append "--train-data=" td; String.append "--eval-data=" ed;
    String.append "--train-steps=" ts; String.append "--eval-steps=" es;
    String.append "--batch-size=" bs; String.append "--preprocess=" pre;
    String.append "--cache-data=" cd; String.append "--shuffle-buffer=" sb;
    String.append "--regen-dress=" rd ].

(** The first example of the module's docstring, after the program name. *)
Definition docstring_argv : list string :=
  [ "--model-dir=my_model"; "--params=params.yml";
    "--train-data=train.yml"; "--eval-data=test.yml";
    "--max-steps=1e6"; "--eval-steps=100"; "--cache-data=True" ].

(** A command line with the required options only. *)
Definition required_argv : list string :=
  [ "--model-dir=my_model"; "--params-file=params.yml";
    "--train-data=train.yml"; "--eval-data=test.yml"; "--train-steps=1000" ].

Definition required_ns (preprocess cache_data regen_dress : bool) : namespace :=
  [ ("model_dir", VStr "my_model"); ("params_file", VStr "params.yml");
    ("train_data", VStr "train.yml"); ("eval_data", VStr "test.yml");
    ("train_steps", VInt 1000); ("eval_steps", VInt 100);
    ("batch_size", VNone); ("preprocess", VBool preprocess);
    ("cache_data", VBool cache_data); ("shuffle_buffer", VInt 100);
    ("regen_dress", VBool regen_dress) ].

(** ** The orchestrator [trainner] *)

Section Trainer.
(** What the external packages hand back: a loaded tfrecord, an
    estimator, and TensorFlow's train and evaluation specs. *)
Context {source model train_spec eval_spec : Type}.

(** A [tf.data.Dataset] is known by the loaded source it starts from
    and the transformations applied to it, first applied first.  A
    transformation is recorded, not run: what TensorFlow does when the
    method is called, a failure of the method included, is outside this
    model, which follows a dataset function along the calls that
    return. *)
Inductive transformation :=
| SparseBatch (batch_size : pyval)
| Map (f : pyval -> heap -> result pyval)
| Cache
| Repeat
| Shuffle (buffer_size : pyval).

Record dataset := Dataset {
  ds_source : source;
  ds_pipeline : list transformation
}.

Definition ds_then (t : transformation) (d : dataset) : dataset :=
  {| ds_source := ds_source d; ds_pipeline := ds_pipeline d ++ [t] |}.

(** A zero-argument function building a dataset; it reads the objects
    it has captured when it is called. *)
Definition input_fn := heap -> result dataset.

(** The external world.  An oracle that creates Python objects returns
    them as a list to be appended to the store; none of them changes an
    object that already exists. *)
Record externals := Externals {
  (* [yaml.load(f)] on [FileIO(params_file, 'r')] *)
  yaml_load : pyval -> heap -> result (list obj * pyval);
  (* [pinn.io.load_tfrecord] *)
  load_tfrecord : pyval -> result source;
  (* [pinn.utils.get_atomic_dress], returning a pair *)
  get_atomic_dress : dataset -> pyval -> heap -> result (list obj * (pyval * pyval));
  (* [pinn.models.potential_model] *)
  potential_model : pyval -> heap -> result model;
  (* the attributes of the module [pinn.networks] *)
  networks_attr : string -> option pyval;
  (* [network_fn(tensors, preprocess=..., **kwargs)] *)
  network_call : pyval -> pyval -> bool -> pyval -> heap -> result pyval;
  (* [tf.estimator.TrainSpec(input_fn=..., max_steps=...)] *)
  TrainSpec : input_fn -> pyval -> result train_spec;
  (* [tf.estimator.EvalSpec(input_fn=..., steps=...)] *)
  EvalSpec : input_fn -> pyval -> result eval_spec;
  (* [tf.estimator.train_and_evaluate] *)
  train_and_evaluate : model -> train_spec -> eval_spec -> heap -> result (list obj * pyval)
}.

(** External calls, as recorded in the log.  A call that can read the
    object store is recorded with the store it saw. *)
Inductive call :=
| Call_yaml_load (params_file : pyval)
| Call_load_tfrecord (fname : pyval)
| Call_get_atomic_dress (ds : dataset) (elems : pyval) (h : heap)
| Call_potential_model (params : pyval) (h : heap)
| Call_TrainSpec (fn : input_fn) (max_steps : pyval)
| Call_EvalSpec (fn : input_fn) (steps : pyval)
| Call_train_and_evaluate (m : model) (ts : train_spec) (es : eval_spec) (h : heap).

Record state := State {
  st_heap : heap;
  st_log : list call
}.

(** Computations that read and write the store, log calls and may
    raise; what was done before an exception stays done. *)
Definition M (A : Type) : Type := state -> result A * state.

#[global] Instance M_ret : MRet M := fun A a s => (Ok a, s).
#[global] Instance M_bind : MBind M := fun A B f m s =>
  match m s with
  | (Ok a, s') => f a s'
  | (Raise e, s') => (Raise e, s')
  end.

Definition m_read {A} (f : heap -> result A) : M A :=
  fun s => (f (st_heap s), s).

Definition m_setitem (o : pyval) (k : string) (v : pyval) : M unit :=
  fun s =>
    match py_setitem (st_heap s) o k v with
    | Ok h' => (Ok tt, {| st_heap := h'; st_log := st_log s |})
    | Raise e => (Raise e, s)
    end.

Definition m_alloc (o : obj) : M pyval :=
  fun s => (Ok (VRef (List.length (st_heap s))),
            {| st_heap := st_heap s ++ [o]; st_log := st_log s |}).

Definition m_call {A} (c : heap -> call) (f : heap -> result A) : M A :=
  fun s => (f (st_heap s),
            {| st_heap := st_heap s; st_log := st_log s ++ [c (st_heap s)] |}).

Definition m_call_new {A} (c : heap -> call)
    (f : heap -> result (list obj * A)) : M A :=
  fun s =>
    let log := st_log s ++ [c (st_heap s)] in
    match f (st_heap s) with
    | Ok (objs, a) => (Ok a, {| st_heap := st_heap s ++ objs; st_log := log |})
    | Raise e => (Raise e, {| st_heap := st_heap s; st_log := log |})
    end.

Variable ext : externals.

(** [lambda tensors: network_fn(tensors, preprocess=True,
    **params['network_params'])] *)
Definition pre_fn (network_fn params : pyval) : pyval -> heap -> result pyval :=
  fun tensors h =>
    kwargs ← py_getitem h params "network_params";
    network_call ext network_fn tensors true kwargs h.

(** The inner function [_dataset_fn(fname)], with the variables it
    captures from [trainner]. *)
Definition _dataset_fn (params batch_size preprocess cache_data : pyval)
    (fname : pyval) : input_fn :=
  fun h =>
    src ← load_tfrecord ext fname;
    let dataset := {| ds_source := src; ds_pipeline := [] |} in
    let dataset :=
      match batch_size with
      | VNone => dataset
      | _ => ds_then (SparseBatch batch_size) dataset
      end in
    dataset ←
      (if py_truthy h preprocess then
         network ← py_getitem h params "network";
         network_fn ←
           match network with
           | VStr name =>
               match networks_attr ext name with
               | Some f => Ok f
               | None => Raise (AttributeError name)
               end
           | _ => Ok network
           end;
         Ok (ds_then (Map (pre_fn network_fn params)) dataset)
       else Ok dataset);
    let dataset :=
      if py_truthy h cache_data then ds_then Cache dataset else dataset in
    Ok dataset.

(** [lambda: _dataset_fn(train_data).repeat().shuffle(shuffle_buffer)] *)
Definition train_fn (params batch_size preprocess cache_data shuffle_buffer
    train_data : pyval) : input_fn :=
  fun h =>
    d ← _dataset_fn params batch_size preprocess cache_data train_data h;
    Ok (ds_then (Shuffle shuffle_buffer) (ds_then Repeat d)).

(** [lambda: _dataset_fn(eval_data)] *)
Definition eval_fn (params batch_size preprocess cache_data
    eval_data : pyval) : input_fn :=
  fun h => _dataset_fn params batch_size preprocess cache_data eval_data h.

Definition trainner (model_dir params_file train_data eval_data
    train_steps eval_steps batch_size preprocess cache_data
    shuffle_buffer regen_dress : pyval) : M pyval :=
  (* Prepare the params or load the model *)
  params ← m_call_new (fun _ => Call_yaml_load params_file)
                      (yaml_load ext params_file);
  _ ← m_setitem params "model_dir" model_dir;
  wanted ← m_read (fun h => Ok (py_truthy h regen_dress));
  regen ← (if wanted : bool then
             model_params ← m_read (fun h => py_getitem h params "model_params");
             m_read (fun h => py_contains h "e_dress" model_params)
           else mret false);
  _ ← (if regen : bool then
         model_params ← m_read (fun h => py_getitem h params "model_params");
         e_dress ← m_read (fun h => py_getitem h model_params "e_dress");
         ks ← m_read (fun h => py_keys h e_dress);
         elems ← m_alloc (OList (map key_val ks));
         src ← m_call (fun _ => Call_load_tfrecord train_data)
                      (fun _ => load_tfrecord ext train_data);
         let ds := {| ds_source := src; ds_pipeline := [] |} in
         '(dress, _) ← m_call_new (Call_get_atomic_dress ds elems)
                                  (get_atomic_dress ext ds elems);
         model_params ← m_read (fun h => py_getitem h params "model_params");
         m_setitem model_params "e_dress" dress
       else mret tt);
  model ← m_call (Call_potential_model params) (potential_model ext params);
  (* Training specs *)
  let train_fn :=
    train_fn params batch_size preprocess cache_data shuffle_buffer train_data in
  let eval_fn :=
    eval_fn params batch_size preprocess cache_data eval_data in
  train_spec ← m_call (fun _ => Call_TrainSpec train_fn train_steps)
                      (fun _ => TrainSpec ext train_fn train_steps);
  eval_spec ← m_call (fun _ => Call_EvalSpec eval_fn eval_steps)
                     (fun _ => EvalSpec ext eval_fn eval_steps);
  (* Run *)
  _ ← m_call_new (Call_train_and_evaluate model train_spec eval_spec)
                 (train_and_evaluate ext model train_spec eval_spec);
  mret VNone.

(** *** The command-line entry point [main] *)

Definition m_pure {A} (r : result A) : M A := fun s => (r, s).

(** [parser.parse_args()] in the store of the program.  When the parser
    ends the process nothing of what it made can be reached, and the
    store is left as it was. *)
Definition m_parse_args (argv : list string) : M namespace :=
  fun s =>
    match parse_args parser argv (st_heap s) with
    | Ok (args, h) => (Ok args, {| st_heap := h; st_log := st_log s |})
    | Raise e => (Raise e, s)
    end.

(** [main()], with [argv] standing for [sys.argv[1:]]. *)
Definition main (argv : list string) : M pyval :=
  args ← m_parse_args argv;
  model_dir ← m_pure (getattr args "model_dir");
  params_file ← m_pure (getattr args "params_file");
  train_data ← m_pure (getattr args "train_data");
  eval_data ← m_pure (getattr args "eval_data");
  train_steps ← m_pure (getattr args "train_steps");
  eval_steps ← m_pure (getattr args "eval_steps");
  batch_size ← m_pure (getattr args "batch_size");
  preprocess ← m_pure (getattr args "preprocess");
  cache_data ← m_pure (getattr args "cache_data");
  shuffle_buffer ← m_pure (getattr args "shuffle_buffer");
  regen_dress ← m_pure (getattr args "regen_dress");
  _ ← trainner model_dir params_file train_data eval_data
        train_steps eval_steps batch_size preprocess cache_data
        shuffle_buffer regen_dress;
  mret VNone.

(** *** Vocabulary of the statements *)

(** The test of line 56 on the store [h]: the flag is true and the
    record's [model_params] is a dictionary with the key [e_dress]. *)
Definition regen_applies (h : heap) (params regen_dress : pyval) : Prop :=
  py_truthy h regen_dress = true ∧
  ∃ mp, py_getitem h params "model_params" = Ok (VRef mp) ∧
        is_Some (field h mp (KStr "e_dress")).

(** The stage that preprocessing adds to a dataset built on the store
    [h]: nothing unless the flag is true, else one [Map] of [pre_fn] for
    the network that [params['network']] selects, by name in
    [pinn.networks] when it is a string, else the object itself. *)
Definition preprocessing_stage (h : heap) (params preprocess : pyval)
    (stage : list transformation) : Prop :=
  if py_truthy h preprocess then
    ∃ network network_fn,
      py_getitem h params "network" = Ok network ∧
      match network with
      | VStr name => networks_attr ext name = Some network_fn
      | _ => network_fn = network
      end ∧
      stage = [Map (pre_fn network_fn params)]
  else stage = [].

Definition batching_stage (batch_size : pyval) : list transformation :=
  match batch_size with
  | VNone => []
  | _ => [SparseBatch batch_size]
  end.

Definition caching_stage (h : heap) (cache_data : pyval)
  : list transformation :=
  if py_truthy h cache_data then [Cache] else [].

(** Calls made after the model has been built. *)
Definition is_run_call (c : call) : Prop :=
  match c with
  | Call_TrainSpec _ _ | Call_EvalSpec _ _
  | Call_train_and_evaluate _ _ _ _ => True
  | _ => False
  end.

Definition is_dress_call (c : call) : Prop :=
  match c with
  | Call_get_atomic_dress _ _ _ => True
  | _ => False
  end.

(** Running a computation from the store [h] with an empty log. *)
Definition run {A} (m : M A) (h : heap) : result A * state :=
  m {| st_heap := h; st_log := [] |}.

End Trainer.

(** ** The reference data of the tests: [_get_lj_data]

    Floats are rationals here: the grid of [np.linspace] is the exact one,
    without rounding.  ASE's formula parser and its Lennard-Jones
    calculator are oracles. *)

Module TestPotential.

Definition float_of_int (z : Z) : Qc := Q2Qc (inject_Z z).

(** [np.linspace(start, stop, num)] with the default [endpoint=True]. *)
Definition linspace (start stop : Qc) (num : nat) : list Qc :=
  let div := (num - 1)%nat in
  let delta := (stop - start)%Qc in
  let step :=
    if (0 <? div)%nat then (delta / float_of_int (Z.of_nat div))%Qc
    else delta in
  let y := map (fun i => (float_of_int (Z.of_nat i) * step + start)%Qc)
               (seq 0 num) in
  if (1 <? num)%nat then <[(num - 1)%nat := stop]> y else y.

Record calculator := LennardJones { rc : Qc }.

Record atoms := MkAtoms {
  positions : list (list Qc);
  numbers : list Z;
  calc : option calculator
}.

Record lj_data := LjData {
  coord : list (list (list Qc));
  elems : list (list Z);
  e_data : list Qc;
  f_data : list (list (list Qc))
}.

Section Generator.
(** [ase.symbols.symbols2numbers]: the atomic numbers of a formula *)
Variable symbols2numbers : string -> list Z.
(** the energy and the forces of [LennardJones(rc=...)] for given
    positions and atomic numbers *)
Variable lj_energy : Qc -> list (list Qc) -> list Z -> Qc.
Variable lj_forces : Qc -> list (list Qc) -> list Z -> list (list Qc).

(** [Atoms(symbols, positions=...)] *)
Definition Atoms (symbols : string) (pos : list (list Z)) : atoms :=
  {| positions := map (map float_of_int) pos;
     numbers := symbols2numbers symbols;
     calc := None |}.

Definition set_calculator (a : atoms) (c : calculator) : atoms :=
  {| positions := positions a; numbers := numbers a; calc := Some c |}.

(** [atoms.positions[i, j] = x] *)
Definition set_position (a : atoms) (i j : nat) (x : Qc) : result atoms :=
  match positions a !! i with
  | Some row =>
      if (j <? List.length row)%nat then
        Ok {| positions := <[i := <[j := x]> row]> (positions a);
              numbers := numbers a;
              calc := calc a |}
      else Raise (OtherError "IndexError")
  | None => Raise (OtherError "IndexError")
  end.

Definition get_potential_energy (a : atoms) : result Qc :=
  match calc a with
  | Some c => Ok (lj_energy (rc c) (positions a) (numbers a))
  | None => Raise (OtherError "RuntimeError")
  end.

Definition get_forces (a : atoms) : result (list (list Qc)) :=
  match calc a with
  | Some c => Ok (lj_forces (rc c) (positions a) (numbers a))
  | None => Raise (OtherError "RuntimeError")
  end.

(** The body of the loop over the grid, with the atoms object and the
    four lists it appends to. *)
Fixpoint scan (xs : list Qc) (a : atoms) (d : lj_data)
  : result (atoms * lj_data) :=
  match xs with
  | [] => Ok (a, d)
  | x_a :: xs' =>
      a ← set_position a 0 0 x_a;
      let coord := coord d ++ [positions a] in
      let elems := elems d ++ [numbers a] in
      e ← get_potential_energy a;
      let e_data := e_data d ++ [e] in
      f ← get_forces a;
      let f_data := f_data d ++ [f] in
      scan xs' a {| coord := coord; elems := elems;
                    e_data := e_data; f_data := f_data |}
  end.

Definition _get_lj_data : result lj_data :=
  let atoms := Atoms "H3" [[0; 0; 0]; [0; 1; 0]; [1; 1; 0]] in
  let atoms := set_calculator atoms (LennardJones (float_of_int 5)) in
  '(_, data) ← scan (linspace (float_of_int (-5)) (float_of_int 0) 1000)
                    atoms
                    {| coord := []; elems := []; e_data := []; f_data := [] |};
  Ok data.

End Generator.

(** A Lennard-Jones potential with unit parameters, on rationals. *)

Definition dist2 (p q : list Qc) : Qc :=
  fold_right Qcplus (Q2Qc 0) (zip_with (λ a b, (a - b) * (a - b))%Qc p q).

Definition pair_energy (rc : Qc) (p q : list Qc) : Qc :=
  let r2 := dist2 p q in
  if Qc_eq_bool r2 (Q2Qc 0) then Q2Qc 0
  else if negb (Qle_bool r2 (rc * rc)) then Q2Qc 0
  else (float_of_int 4 * (/ (r2 ^ 6) - / (r2 ^ 3)))%Qc.

Fixpoint toy_energy_rows (rc : Qc) (ps : list (list Qc)) : Qc :=
  match ps with
  | [] => Q2Qc 0
  | p :: ps' =>
      (fold_right Qcplus (Q2Qc 0) (map (pair_energy rc p) ps') +
       toy_energy_rows rc ps')%Qc
  end.

Definition toy_energy (rc : Qc) (ps : list (list Qc)) (nums : list Z) : Qc :=
  toy_energy_rows rc ps.

Definition pair_force (rc : Qc) (p q : list Qc) : list Qc :=
  let r2 := dist2 p q in
  let g := if Qc_eq_bool r2 (Q2Qc 0) then Q2Qc 0
           else if negb (Qle_bool r2 (rc * rc)) then Q2Qc 0
           else (float_of_int 24 * (float_of_int 2 * / (r2 ^ 7) - / (r2 ^ 4)))%Qc in
  zip_with (λ a b, g * (a - b))%Qc p q.

Definition toy_forces (rc : Qc) (ps : list (list Qc)) (nums : list Z)
  : list (list Qc) :=
  map (λ p, fold_right (zip_with Qcplus) (map (λ _, Q2Qc 0) p)
              (map (pair_force rc p) ps)) ps.

Definition toy_symbols2numbers (symbols : string) : list Z :=
  if String.eqb symbols "H3" then [1; 1; 1] else [].

End TestPotential.

(** ** A small concrete world, for examples *)

Module Toy.

(** The parameter record of the repository's tests, as PyYAML would
    build it at the end of the store [h]. *)
Definition toy_yaml (params_file : pyval) (h : heap)
  : result (list obj * pyval) :=
  match params_file with
  | VStr f =>
      let a := List.length h in
      if negb (String.eqb f "params.yml") then Raise (OtherError "NotFoundError")
      else Ok ([ ODict [ (KStr "model_dir", VStr "old_dir");
                    (KStr "network", VStr "pinn_network");
                    (KStr "network_params", VRef (a + 1)%nat);
                    (KStr "model_params", VRef (a + 2)%nat) ];
            ODict [ (KStr "depth", VInt 3); (KStr "rc", VFloat (Q2Qc 5)) ];
            ODict [ (KStr "use_force", VBool true);
                    (KStr "e_dress", VRef (a + 3)%nat);
                    (KStr "e_scale", VFloat (Q2Qc 5));
                    (KStr "e_unit", VFloat (Q2Qc 2)) ];
            ODict [ (KInt 1, VFloat (Q2Qc (1 # 2))) ] ],
          VRef a)
  | _ => Raise (OtherError "NotFoundError")
  end.

(** A dress giving every requested element the energy [-1/4]. *)
Definition toy_dress (ds : @dataset string) (elems : pyval) (h : heap)
  : result (list obj * (pyval * pyval)) :=
  match elems with
  | VRef a =>
      match h !! a with
      | Some (OList l) =>
          Ok ([ ODict (flat_map (fun v => match v with
                                          | VInt z => [(KInt z, VFloat (Q2Qc (-1 # 4)))]
                                          | VStr s => [(KStr s, VFloat (Q2Qc (-1 # 4)))]
                                          | _ => []
                                          end) l) ],
              (VRef (List.length h), VFloat (Q2Qc 0)))
      | _ => Raise TypeError
      end
  | _ => Raise TypeError
  end.

Definition toy : @externals string (pyval * heap) (pyval) (pyval) :=
  {| yaml_load := toy_yaml;
     load_tfrecord := fun f => match f with
                               | VStr s => Ok s
                               | _ => Raise TypeError
                               end;
     get_atomic_dress := toy_dress;
     potential_model := fun p h => Ok (p, h);
     networks_attr := fun name =>
       if String.eqb name "pinn_network" then Some (VObj "pinn.networks.pinn_network")
       else if String.eqb name "bpnn_network" then Some (VObj "pinn.networks.bpnn_network")
       else None;
     network_call := fun f tensors pre kw h => Ok tensors;
     TrainSpec := fun fn steps => Ok steps;
     EvalSpec := fun fn steps => Ok steps;
     train_and_evaluate := fun m ts es h =>
       Ok ([ ODict [ (KStr "METRICS/E_RMSE", VFloat (Q2Qc (1 # 10))) ] ],
           VRef (List.length h)) |}.

(** [trainner] on the defaults of the command line. *)
Definition toy_run (regen_dress : pyval) :=
  run (trainner toy (VStr "my_model") (VStr "params.yml") (VStr "train.yml")
         (VStr "test.yml") (VInt 1000) (VInt 100) VNone (VBool false)
         (VBool true) (VInt 100) regen_dress) [].

(** The store handed to [potential_model] when the dress is
    regenerated. *)
Definition toy_model_store : heap :=
  Eval vm_compute in
    match st_log (snd (toy_run (VBool true))) with
    | _ :: _ :: _ :: Call_potential_model _ hp :: _ => hp
    | _ => []
    end.




(** The same world, reading another parameter file: the objects [objs]
    with the first one as the record, or the value [v] when there are
    none. *)
Definition toy_with_yaml (objs : list obj) (v : pyval)
  : @externals string (pyval * heap) pyval pyval :=
  {| yaml_load := fun _ h =>
       match objs with
       | [] => Ok ([], v)
       | _ => Ok (objs, VRef (List.length h))
       end;
     load_tfrecord := load_tfrecord toy;
     get_atomic_dress := get_atomic_dress toy;
     potential_model := potential_model toy;
     networks_attr := networks_attr toy;
     network_call := network_call toy;
     TrainSpec := TrainSpec toy;
     EvalSpec := EvalSpec toy;
     train_and_evaluate := train_and_evaluate toy |}.

(** [trainner] in such a world, on the defaults of the command line but
    for the training data and the flag. *)
Definition toy_run_with (objs : list obj) (v : pyval)
    (train_data regen_dress : pyval) :=
  run (trainner (toy_with_yaml objs v) (VStr "my_model") (VStr "params.yml")
         train_data (VStr "test.yml") (VInt 1000) (VInt 100) VNone
         (VBool false) (VBool true) (VInt 100) regen_dress) [].

(** A record that only names the network. *)
Definition bare_record : list obj :=
  [ ODict [ (KStr "network", VStr "pinn_network") ] ].

Definition bare_record_dir : heap :=
  [ ODict [ (KStr "network", VStr "pinn_network");
            (KStr "model_dir", VStr "my_model") ] ].

(** A record whose [e_dress] entry is empty. *)
Definition null_dress_record : list obj :=
  [ ODict [ (KStr "model_params", VRef 1%nat) ];
    ODict [ (KStr "e_dress", VNone) ] ].

Definition null_dress_record_dir : heap :=
  [ ODict [ (KStr "model_params", VRef 1%nat);
            (KStr "model_dir", VStr "my_model") ];
    ODict [ (KStr "e_dress", VNone) ] ].

(** The record of [params.yml] once [model_dir] is written. *)
Definition toy_record_dir : heap :=
  Eval vm_compute in
    match yaml_load toy (VStr "params.yml") [] with
    | Ok (objs, root) =>
        match py_setitem objs root "model_dir" (VStr "my_model") with
        | Ok h1 => h1
        | Raise _ => []
        end
    | Raise _ => []
    end.

(** A record that asks for a network the package does not have. *)
Definition unknown_network_record : heap :=
  [ ODict [ (KStr "network", VStr "nope") ] ].

End Toy.


(** ** Facts about the object store *)

Lemma py_getitem_Ok h o k v :
  py_getitem h o k = Ok v ↔ ∃ a, o = VRef a ∧ field h a (KStr k) = Some v.
Proof.
  unfold py_getitem, field. split.
  - intros H. destruct o; try done. exists a. split; [done|].
    repeat case_match; simplify_eq; done.
  - intros (a & -> & H). repeat case_match; simplify_eq; done.
Qed.

Lemma py_setitem_Ok h o k v h' :
  py_setitem h o k v = Ok h' ↔
  ∃ a d, o = VRef a ∧ h !! a = Some (ODict d) ∧
         h' = <[a := ODict (dict_set (KStr k) v d)]> h.
Proof.
  unfold py_setitem. split.
  - intros H. repeat case_match; simplify_eq; eauto.
  - intros (a & d & -> & -> & ->). done.
Qed.

Lemma py_keys_Ok h o ks :
  py_keys h o = Ok ks ↔
  ∃ a d, o = VRef a ∧ h !! a = Some (ODict d) ∧ ks = dict_keys d.
Proof.
  unfold py_keys. split.
  - intros H. repeat case_match; simplify_eq; eauto.
  - intros (a & d & -> & -> & ->). done.
Qed.

Lemma field_app_l h h' a k v :
  field h a k = Some v → field (h ++ h') a k = Some v.
Proof.
  unfold field. intros H.
  destruct (h !! a) as [o|] eqn:Ha; [|done].
  by rewrite (lookup_app_l_Some _ _ _ _ Ha).
Qed.

Lemma py_getitem_app_l h h' o k v :
  py_getitem h o k = Ok v → py_getitem (h ++ h') o k = Ok v.
Proof.
  rewrite !py_getitem_Ok. intros (a & -> & H). eauto using field_app_l.
Qed.

#[local] Arguments py_getitem : simpl never.
#[local] Arguments py_setitem : simpl never.
#[local] Arguments py_contains : simpl never.
#[local] Arguments py_keys : simpl never.
#[local] Arguments py_truthy : simpl never.

Section TrainerFacts.
Context {source model train_spec eval_spec : Type}.
Variable ext : @externals source model train_spec eval_spec.

Ltac log_cases H :=
  simpl in H;
  repeat first
    [ apply elem_of_nil in H; contradiction
    | apply elem_of_cons in H as [H | H]; [try discriminate H |] ].

Ltac unfold_M H :=
  unfold run, mbind, M_bind, m_call_new, m_setitem, m_read, m_call, m_alloc,
    m_pure, mret, M_ret in H; simpl in H.

(** The calls that follow the construction of the model. *)
Ltac run_tail H Hin :=
  repeat (case_match; simplify_eq; simpl in * );
  log_cases Hin; simplify_eq.

Lemma not_regen_by_contains h p rd a :
  py_getitem h p "model_params" = Ok a →
  py_contains h "e_dress" a = Ok false →
  ¬ regen_applies h p rd.
Proof.
  intros Hg Hc (_ & mp & Hg' & Hf).
  rewrite Hg in Hg'. simplify_eq.
  unfold py_contains, field in *.
  destruct (h !! mp) as [[d|l]|]; simplify_eq; try by destruct Hf.
  by apply bool_decide_eq_false in Hc.
Qed.

Lemma reaches_model md pf td ed ts es bs pre cd sb rd h r s' p hp :
  run (trainner ext md pf td ed ts es bs pre cd sb rd) h = (r, s') →
  Call_potential_model p hp ∈ st_log s' →
  ∃ objs h1,
    yaml_load ext pf h = Ok (objs, p) ∧
    py_setitem (h ++ objs) p "model_dir" md = Ok h1 ∧
    ((¬ regen_applies h1 p rd ∧ hp = h1 ∧
      ∃ rest, st_log s' = Call_yaml_load pf :: Call_potential_model p hp :: rest ∧
              Forall is_run_call rest)
     ∨
     (regen_applies h1 p rd ∧
      ∃ mp aed ded src nobjs dress err,
        py_getitem h1 p "model_params" = Ok (VRef mp) ∧
        field h1 mp (KStr "e_dress") = Some (VRef aed) ∧
        h1 !! aed = Some (ODict ded) ∧
        load_tfrecord ext td = Ok src ∧
        let hc := h1 ++ [OList (map key_val (dict_keys ded))] in
        get_atomic_dress ext (Dataset src []) (VRef (List.length h1)) hc
          = Ok (nobjs, (dress, err)) ∧
        py_setitem (hc ++ nobjs) (VRef mp) "e_dress" dress = Ok hp ∧
        ∃ rest, st_log s' =
                  [Call_yaml_load pf; Call_load_tfrecord td;
                   Call_get_atomic_dress (Dataset src []) (VRef (List.length h1)) hc;
                   Call_potential_model p hp] ++ rest ∧
                Forall is_run_call rest)).
Proof.
  unfold trainner. intros Hrun Hin. unfold_M Hrun.
  destruct (yaml_load ext pf h) as [[objs root]|e] eqn:Hy; simpl in Hrun.
  2:{ simplify_eq. log_cases Hin. }
  destruct (py_setitem (h ++ objs) root "model_dir" md) as [h1|e] eqn:Hs;
    simpl in Hrun.
  2:{ simplify_eq. log_cases Hin. }
  destruct (py_truthy h1 rd) eqn:Ht; simpl in Hrun.
  2:{ (* the flag is false *)
    run_tail Hrun Hin.
    all: eexists _, _; split; [done|]; split; [done|]; left.
    all: split; [intros [? _]; congruence|]; split; [done|].
    all: eexists; split; [done|]; repeat constructor. }
  destruct (py_getitem h1 root "model_params") as [a0|e] eqn:Hmp; simpl in Hrun.
  2:{ simplify_eq. log_cases Hin. }
  destruct (py_contains h1 "e_dress" a0) as [[]|e] eqn:Hc; simpl in Hrun.
  3:{ simplify_eq. log_cases Hin. }
  2:{ (* no key [e_dress] *)
    run_tail Hrun Hin.
    all: eexists _, _; split; [done|]; split; [done|]; left.
    all: split; [by eapply not_regen_by_contains|]; split; [done|].
    all: eexists; split; [done|]; repeat constructor. }
  (* the dress is recomputed *)
  rewrite Hmp in Hrun; simpl in Hrun.
  destruct (py_getitem h1 a0 "e_dress") as [a1|e] eqn:Hed; simpl in Hrun.
  2:{ simplify_eq. log_cases Hin. }
  destruct (py_keys h1 a1) as [ks|e] eqn:Hks; simpl in Hrun.
  2:{ simplify_eq. log_cases Hin. }
  destruct (load_tfrecord ext td) as [src|e] eqn:Hld; simpl in Hrun.
  2:{ simplify_eq. log_cases Hin. }
  destruct (get_atomic_dress ext _ _ _) as [[nobjs [dress err]]|e] eqn:Hgd;
    simpl in Hrun.
  2:{ simplify_eq. log_cases Hin. }
  rewrite (py_getitem_app_l _ nobjs _ _ _
             (py_getitem_app_l _ [OList (map key_val ks)] _ _ _ Hmp)) in Hrun.
  destruct (py_setitem _ a0 "e_dress" dress) as [hp'|e] eqn:Hse; simpl in Hrun.
  2:{ simplify_eq. log_cases Hin. }
  apply py_getitem_Ok in Hed as (mp & -> & Hed).
  apply py_keys_Ok in Hks as (aed & ded & -> & Haed & ->).
  run_tail Hrun Hin.
  all: eexists _, _; split; [done|]; split; [done|]; right.
  all: split; [split; [done|]; eexists; split; [done|]; by rewrite Hed|].
  all: eexists _, _, _, _, _, _, _; repeat (split; [done|]).
  all: eexists; split; [done|]; repeat constructor.
Qed.

(** *** Dictionaries and the store *)

Lemma key_eqb_eq k1 k2 : key_eqb k1 k2 = true ↔ k1 = k2.
Proof.
  destruct k1, k2; simpl; try (split; [done | discriminate]).
  - rewrite String.eqb_eq. split; congruence.
  - rewrite Z.eqb_eq. split; congruence.
Qed.

Lemma key_eqb_refl k : key_eqb k k = true.
Proof. by apply key_eqb_eq. Qed.

Lemma key_eqb_ne k1 k2 : k1 ≠ k2 → key_eqb k1 k2 = false.
Proof.
  intros Hne. destruct (key_eqb k1 k2) eqn:E; [|done].
  by apply key_eqb_eq in E.
Qed.

Lemma dict_get_set_eq k v d : dict_get k (dict_set k v d) = Some v.
Proof.
  induction d as [|[k' v'] d IH]; simpl.
  - by rewrite key_eqb_refl.
  - destruct (key_eqb k k') eqn:E; simpl; rewrite E; done.
Qed.

Lemma dict_get_set_ne k k' v d :
  k' ≠ k → dict_get k' (dict_set k v d) = dict_get k' d.
Proof.
  intros Hne. induction d as [|[k0 v0] d IH]; simpl.
  - by rewrite key_eqb_ne.
  - destruct (key_eqb k k0) eqn:E; simpl.
    + apply key_eqb_eq in E as <-. by rewrite key_eqb_ne.
    + by rewrite IH.
Qed.

Lemma field_setitem_eq h a k v h' :
  py_setitem h (VRef a) k v = Ok h' → field h' a (KStr k) = Some v.
Proof.
  intros (a' & d & ? & Ha & ->)%py_setitem_Ok. simplify_eq.
  unfold field. rewrite list_lookup_insert_eq; [|by eapply lookup_lt_Some].
  apply dict_get_set_eq.
Qed.

Lemma field_setitem_ne h a k v h' a' k' :
  py_setitem h (VRef a) k v = Ok h' →
  (a', k') ≠ (a, KStr k) →
  field h' a' k' = field h a' k'.
Proof.
  intros (a0 & d & ? & Ha & ->)%py_setitem_Ok Hne. simplify_eq.
  unfold field. destruct (decide (a' = a0)) as [->|Hna].
  - rewrite list_lookup_insert_eq; [|by eapply lookup_lt_Some].
    rewrite Ha. apply dict_get_set_ne. congruence.
  - by rewrite list_lookup_insert_ne.
Qed.

Lemma lookup_setitem_ne (h h' : heap) a k v a' :
  py_setitem h (VRef a) k v = Ok h' → a' ≠ a → h' !! a' = h !! a'.
Proof.
  intros (a0 & d & ? & Ha & ->)%py_setitem_Ok Hne. simplify_eq.
  by rewrite list_lookup_insert_ne.
Qed.

Lemma lookup_setitem_list (h h' : heap) o k v a l :
  py_setitem h o k v = Ok h' → h !! a = Some (OList l) → h' !! a = Some (OList l).
Proof.
  intros (a0 & d & -> & Ha & ->)%py_setitem_Ok Hl.
  destruct (decide (a = a0)) as [->|Hne]; [congruence|].
  by rewrite list_lookup_insert_ne.
Qed.

Lemma length_setitem h o k v h' :
  py_setitem h o k v = Ok h' → List.length h' = List.length h.
Proof.
  intros (a0 & d & -> & Ha & ->)%py_setitem_Ok. apply length_insert.
Qed.

Lemma field_app_lt h h' a k :
  (a < List.length h)%nat → field (h ++ h') a k = field h a k.
Proof. intros Hlt. unfold field. by rewrite lookup_app_l. Qed.

(** *** What reaches model construction *)

(** C1.  Suppose a run of [trainner] reaches the construction of the
    model.  Then [get_atomic_dress] is called if and only if the
    regenerate-dress flag is true and [model_params] of the loaded record
    has the key [e_dress].  In that case it is called once, before the
    model is built, on the dataset loaded from the training data and on a
    list holding exactly the keys of the configured [e_dress] dictionary,
    and the dress it returns is the [e_dress] entry of [model_params] in
    the store handed to [potential_model].  In every other case the store
    handed to [potential_model] is the loaded one with the model directory
    set, so [e_dress] is as it was loaded. *)
Theorem trainner_regen_dress md pf td ed ts es bs pre cd sb rd h r s' p hp :
  run (trainner ext md pf td ed ts es bs pre cd sb rd) h = (r, s') →
  Call_potential_model p hp ∈ st_log s' →
  ∃ objs h1,
    yaml_load ext pf h = Ok (objs, p) ∧
    py_setitem (h ++ objs) p "model_dir" md = Ok h1 ∧
    (Exists is_dress_call (st_log s') ↔ regen_applies h1 p rd) ∧
    (regen_applies h1 p rd →
     ∃ mp aed ded src elems hc nobjs dress err,
       py_getitem h1 p "model_params" = Ok (VRef mp) ∧
       field h1 mp (KStr "e_dress") = Some (VRef aed) ∧
       h1 !! aed = Some (ODict ded) ∧
       load_tfrecord ext td = Ok src ∧
       (∃ before after,
          st_log s' = before ++
            Call_get_atomic_dress (Dataset src []) (VRef elems) hc :: after ∧
          ¬ Exists is_dress_call before ∧
          ¬ Exists is_dress_call after ∧
          Call_potential_model p hp ∈ after) ∧
       hc !! elems = Some (OList (map key_val (dict_keys ded))) ∧
       get_atomic_dress ext (Dataset src []) (VRef elems) hc
         = Ok (nobjs, (dress, err)) ∧
       field hp mp (KStr "e_dress") = Some dress) ∧
    (¬ regen_applies h1 p rd → hp = h1).
Proof.
  intros Hrun Hin.
  destruct (reaches_model _ _ _ _ _ _ _ _ _ _ _ _ _ _ _ _ Hrun Hin)
    as (objs & h1 & Hy & Hs & [(Hno & -> & rest & Hlog & Hrest) |
         (Hyes & mp & aed & ded & src & nobjs & dress & err & Hmp & Hed &
          Haed & Hld & Hgd & Hse & rest & Hlog & Hrest)]).
  - exists objs, h1. split; [done|]. split; [done|].
    split; [|split; [done|done]].
    split; [|done].
    intros Hex. rewrite Hlog in Hex.
    apply Exists_cons in Hex as [[]|Hex].
    apply Exists_cons in Hex as [[]|Hex].
    apply Exists_exists in Hex as (c & Hc & Hd).
    rewrite Forall_forall in Hrest. specialize (Hrest c Hc).
    by destruct c.
  - assert (Hnorest : ¬ Exists is_dress_call rest).
    { intros (c & Hc & Hd)%Exists_exists.
      rewrite Forall_forall in Hrest. specialize (Hrest c Hc).
      by destruct c. }
    exists objs, h1. split; [done|]. split; [done|]. split; [|split].
    + split; [done|]. intros _. rewrite Hlog. simpl.
      do 2 apply Exists_cons_tl. by apply Exists_cons_hd.
    + intros _.
      exists mp, aed, ded, src, (List.length h1),
        (h1 ++ [OList (map key_val (dict_keys ded))]), nobjs, dress, err.
      repeat (split; [done|]).
      split; [|split; [|split; [done|]]].
      * exists [Call_yaml_load pf; Call_load_tfrecord td],
          (Call_potential_model p hp :: rest).
        split; [by rewrite Hlog|]. split; [|split].
        -- intros Hex. apply Exists_cons in Hex as [[]|Hex].
           apply Exists_cons in Hex as [[]|Hex]. by apply Exists_nil in Hex.
        -- intros Hex. apply Exists_cons in Hex as [[]|Hex]. done.
        -- apply elem_of_cons. by left.
      * by rewrite lookup_app_r, Nat.sub_diag.
      * by eapply field_setitem_eq.
    + done.
Qed.

(** C4.  Suppose a run of [trainner] reaches the construction of the
    model.  The parameter object handed to [potential_model] is the
    loaded one; in the store handed over with it, the entry [model_dir]
    of the record is the supplied model directory, and every dictionary
    entry of the loaded store other than the record's [model_dir] and
    the [e_dress] of its [model_params] is as it was loaded; lists are
    as loaded; and unless regeneration applies, [model_dir] is the only
    entry that differs. *)
Theorem trainner_frame md pf td ed ts es bs pre cd sb rd h r s' p hp :
  run (trainner ext md pf td ed ts es bs pre cd sb rd) h = (r, s') →
  Call_potential_model p hp ∈ st_log s' →
  ∃ objs root h1,
    yaml_load ext pf h = Ok (objs, p) ∧ p = VRef root ∧
    py_setitem (h ++ objs) p "model_dir" md = Ok h1 ∧
    field hp root (KStr "model_dir") = Some md ∧
    (∀ a k, (a < List.length (h ++ objs))%nat →
            (a, k) ≠ (root, KStr "model_dir") →
            (∀ mp, field (h ++ objs) root (KStr "model_params") = Some (VRef mp) →
                   (a, k) ≠ (mp, KStr "e_dress")) →
            field hp a k = field (h ++ objs) a k) ∧
    (∀ a l, (h ++ objs) !! a = Some (OList l) → hp !! a = Some (OList l)) ∧
    (¬ regen_applies h1 p rd →
     ∀ a k, (a, k) ≠ (root, KStr "model_dir") →
            field hp a k = field (h ++ objs) a k).
Proof.
  intros Hrun Hin.
  destruct (reaches_model _ _ _ _ _ _ _ _ _ _ _ _ _ _ _ _ Hrun Hin)
    as (objs & h1 & Hy & Hs & Hcases).
  pose proof Hs as (root & d & -> & Hroot & Hh1)%py_setitem_Ok.
  exists objs, root, h1. split; [done|]. split; [done|]. split; [done|].
  destruct Hcases as [(Hno & -> & _) |
         (Hyes & mp & aed & ded & src & nobjs & dress & err & Hmp & Hed &
          Haed & Hld & Hgd & Hse & _)].
  - split; [by eapply field_setitem_eq|].
    split; [|split].
    + intros a k _ Hne _. by eapply field_setitem_ne.
    + intros a l Hl. by eapply lookup_setitem_list.
    + intros _ a k Hne. by eapply field_setitem_ne.
  - assert (Hmp0 : field (h ++ objs) root (KStr "model_params") = Some (VRef mp)).
    { apply py_getitem_Ok in Hmp as (a & ? & Hf). simplify_eq.
      rewrite <- Hf. symmetry. eapply field_setitem_ne; [done|]. congruence. }
    split; [|split; [|split]].
    + destruct (decide (root = mp)) as [->|Hne].
      * rewrite (field_setitem_ne _ _ _ _ _ _ _ Hse) by congruence.
        do 2 apply field_app_l. by eapply field_setitem_eq.
      * rewrite (field_setitem_ne _ _ _ _ _ _ _ Hse) by congruence.
        do 2 apply field_app_l. by eapply field_setitem_eq.
    + intros a k Hlt Hne Hne'.
      rewrite (field_setitem_ne _ _ _ _ _ _ _ Hse) by eauto.
      rewrite <- (length_setitem _ _ _ _ _ Hs) in Hlt.
      rewrite !field_app_lt by (rewrite ?length_app; lia).
      by eapply field_setitem_ne.
    + intros a l Hl.
      eapply lookup_setitem_list; [done|].
      eapply lookup_setitem_list in Hl; [|done].
      apply lookup_app_l_Some. by apply lookup_app_l_Some.
    + done.
Qed.

(** *** Delegation to [train_and_evaluate] *)

(** C2, as amended.  [trainner] hands the model built by
    [potential_model] and the two specs built from [train_fn] with the
    training step budget and from [eval_fn] with the evaluation step
    budget to [train_and_evaluate]; an exception of that call propagates,
    and its metrics are dropped: whenever [trainner] returns, it returns
    [None], and it returns only after that call. *)
Theorem trainner_discards_metrics md pf td ed ts es bs pre cd sb rd h r s' :
  run (trainner ext md pf td ed ts es bs pre cd sb rd) h = (r, s') →
  (∀ v, r = Ok v →
        v = VNone ∧
        ∃ m ts' es' hh, Call_train_and_evaluate m ts' es' hh ∈ st_log s') ∧
  (∀ m ts' es' hh,
      Call_train_and_evaluate m ts' es' hh ∈ st_log s' →
      (∃ p, Call_potential_model p hh ∈ st_log s' ∧
            potential_model ext p hh = Ok m ∧
            TrainSpec ext (train_fn ext p bs pre cd sb td) ts = Ok ts' ∧
            EvalSpec ext (eval_fn ext p bs pre cd ed) es = Ok es') ∧
      r = match train_and_evaluate ext m ts' es' hh with
          | Ok _ => Ok VNone
          | Raise e => Raise e
          end).
Proof.
  unfold trainner. intros Hrun. unfold_M Hrun.
  repeat (case_match; simplify_eq; simpl in * ).
  all: split;
    [ intros v Hv; simplify_eq;
      (split; [done|]);
      eexists _, _, _, _; do 10 (try (apply elem_of_cons; first [by left | right]))
    | intros m ts' es' hh Hin; log_cases Hin; simplify_eq;
      (split;
        [ eexists; split;
            [do 10 (try (apply elem_of_cons; first [by left | right]))|done]
        | repeat case_match; congruence ]) ].
Qed.

(** *** The dataset functions *)

Lemma _dataset_fn_spec params bs pre cd fname h d :
  _dataset_fn ext params bs pre cd fname h = Ok d ↔
  ∃ src prep,
    load_tfrecord ext fname = Ok src ∧
    preprocessing_stage ext h params pre prep ∧
    d = {| ds_source := src;
           ds_pipeline := batching_stage bs ++ prep ++ caching_stage h cd |}.
Proof.
  unfold _dataset_fn, preprocessing_stage, caching_stage, batching_stage, ds_then.
  unfold mbind, result_bind.
  split.
  - intros H.
    destruct (load_tfrecord ext fname) as [src|]; [|done].
    exists src.
    destruct (py_truthy h pre).
    + destruct (py_getitem h params "network") as [network|]; [|done].
      destruct network; simpl in *;
        repeat (case_match; simplify_eq; simpl in * );
        eexists; (split; [done|]); (split; [eexists _, _; eauto|]); done.
    + repeat (case_match; simplify_eq; simpl in * );
        eexists; (split; [done|]); (split; [done|]); done.
  - intros (src & prep & -> & Hprep & ->).
    destruct (py_truthy h pre).
    + destruct Hprep as (network & network_fn & -> & Hsel & ->).
      destruct network; simplify_eq; simpl; try rewrite Hsel;
        by repeat (case_match; simplify_eq; simpl in * ).
    + subst prep. by repeat (case_match; simplify_eq; simpl in * ).
Qed.




End TrainerFacts.

(** ** The orchestrator in the small world *)

Module ToyFacts.
Import Toy.

Ltac in_log :=
  repeat first [ by apply elem_of_cons; left
               | apply elem_of_cons; right ].

Lemma toy_reaches_model :
  Call_potential_model (VRef 0%nat) toy_model_store
    ∈ st_log (snd (toy_run (VBool true))).
Proof. vm_compute. in_log. Qed.

Lemma trainner_regen_dress_witness :
  Call_potential_model (VRef 0%nat) toy_model_store
    ∈ st_log (snd (toy_run (VBool true))) ∧
  Exists is_dress_call (st_log (snd (toy_run (VBool true)))) ∧
  field toy_model_store 2 (KStr "e_dress") = Some (VRef 5%nat) ∧
  toy_model_store !! 5%nat = Some (ODict [(KInt 1, VFloat (Q2Qc (-1 # 4)))]).
Proof.
  split; [exact toy_reaches_model|].
  destruct (trainner_regen_dress toy (VStr "my_model") (VStr "params.yml")
              (VStr "train.yml") (VStr "test.yml") (VInt 1000) (VInt 100)
              VNone (VBool false) (VBool true) (VInt 100) (VBool true)
              [] _ _ (VRef 0%nat) toy_model_store
              (surjective_pairing _) toy_reaches_model)
    as (objs & h1 & Hy & Hs & Hiff & Hyes & _).
  assert (Happ : regen_applies h1 (VRef 0%nat) (VBool true)).
  { vm_compute in Hy. injection Hy as <-. vm_compute in Hs. injection Hs as <-.
    split; [done|]. exists 2%nat. split; [done|]. by eexists. }
  split; [by apply Hiff|].
  split; reflexivity.
Defined.

Lemma trainner_frame_witness :
  Call_potential_model (VRef 0%nat) toy_model_store
    ∈ st_log (snd (toy_run (VBool true))) ∧
  field toy_model_store 0 (KStr "model_dir") = Some (VStr "my_model") ∧
  field toy_model_store 0 (KStr "network") = Some (VStr "pinn_network") ∧
  field toy_model_store 2 (KStr "e_scale") = Some (VFloat (Q2Qc 5)).
Proof.
  split; [exact toy_reaches_model|].
  destruct (trainner_frame toy (VStr "my_model") (VStr "params.yml")
              (VStr "train.yml") (VStr "test.yml") (VInt 1000) (VInt 100)
              VNone (VBool false) (VBool true) (VInt 100) (VBool true)
              [] _ _ (VRef 0%nat) toy_model_store
              (surjective_pairing _) toy_reaches_model)
    as (objs & root & h1 & Hy & Hroot & Hs & Hdir & Hframe & _).
  injection Hroot as <-.
  vm_compute in Hy. injection Hy as <-.
  split; [exact Hdir|]. split.
  - rewrite Hframe; [done | simpl; lia | congruence |].
    intros mp [= <-]. congruence.
  - rewrite Hframe; [done | simpl; lia | congruence |].
    intros mp [= <-]. congruence.
Defined.

(** C2 as stated fails: in this run [train_and_evaluate] yields a
    metrics dictionary, and [trainner] returns something else. *)
Lemma trainner_returns_metrics_counterexample :
  ∃ m ts' es' hh objs metrics,
    Call_train_and_evaluate m ts' es' hh
      ∈ st_log (snd (toy_run (VBool true))) ∧
    train_and_evaluate toy m ts' es' hh = Ok (objs, metrics) ∧
    metrics = VRef 6%nat ∧
    objs = [ODict [(KStr "METRICS/E_RMSE", VFloat (Q2Qc (1 # 10)))]] ∧
    fst (toy_run (VBool true)) = Ok VNone ∧
    fst (toy_run (VBool true)) ≠ Ok metrics.
Proof.
  eexists _, _, _, _, _, _.
  split; [vm_compute; in_log|].
  split; [reflexivity|].
  split; [reflexivity|]. split; [reflexivity|]. split; [reflexivity|].
  vm_compute. discriminate.
Qed.

Lemma trainner_discards_metrics_witness :
  fst (toy_run (VBool true)) = Ok VNone ∧
  ∃ m ts' es' hh,
    Call_train_and_evaluate m ts' es' hh ∈ st_log (snd (toy_run (VBool true))).
Proof.
  split; [reflexivity|].
  destruct (trainner_discards_metrics toy (VStr "my_model") (VStr "params.yml")
              (VStr "train.yml") (VStr "test.yml") (VInt 1000) (VInt 100)
              VNone (VBool false) (VBool true) (VInt 100) (VBool true)
              [] _ _ (surjective_pairing _)) as [Hret _].
  destruct (Hret VNone eq_refl) as [_ Hcall]. exact Hcall.
Defined.


End ToyFacts.

(** ** The reference data *)

Module TestPotentialFacts.
Import TestPotential.

#[local] Arguments linspace : simpl never.
#[local] Arguments float_of_int : simpl never.

Lemma lookup_map {A B} (f : A → B) (l : list A) (i : nat) :
  map f l !! i = f <$> (l !! i).
Proof.
  revert i. induction l as [|x l IH]; intros [|i]; simpl; auto.
Qed.

Lemma linspace_length start stop num :
  List.length (linspace start stop num) = num.
Proof.
  unfold linspace. destruct (1 <? num)%nat.
  - rewrite length_insert. by rewrite length_map, length_seq.
  - by rewrite length_map, length_seq.
Qed.

(** Below the last index the grid point is [i * step + start]. *)
Lemma linspace_lookup start stop num i :
  (S i < num)%nat →
  linspace start stop num !! i =
    Some (float_of_int (Z.of_nat i) *
            ((stop - start) / float_of_int (Z.of_nat (num - 1))) + start)%Qc.
Proof.
  intros Hi. unfold linspace.
  assert ((1 <? num)%nat = true) as -> by (apply Nat.ltb_lt; lia).
  assert ((0 <? num - 1)%nat = true) as -> by (apply Nat.ltb_lt; lia).
  rewrite list_lookup_insert_ne by lia.
  rewrite lookup_map, lookup_seq_lt by lia. done.
Qed.

(** The last grid point is [stop] itself. *)
Lemma linspace_lookup_last start stop num :
  (1 < num)%nat →
  linspace start stop num !! (num - 1)%nat = Some stop.
Proof.
  intros Hn. unfold linspace.
  assert ((1 <? num)%nat = true) as -> by (apply Nat.ltb_lt; lia).
  apply list_lookup_insert_eq. rewrite length_map, length_seq. lia.
Qed.

Section GeneratorFacts.
Variable symbols2numbers : string → list Z.
Variable lj_energy : Qc → list (list Qc) → list Z → Qc.
Variable lj_forces : Qc → list (list Qc) → list Z → list (list Qc).

(** One pass of the loop over a grid [xs]: each grid point replaces the
    first coordinate of the first atom, and the four lists grow by the
    positions, the numbers, the energy and the forces at that point. *)
Lemma scan_spec xs : ∀ x0 row rows nums c d,
  ∃ x',
    scan lj_energy lj_forces xs
      {| positions := (x0 :: row) :: rows; numbers := nums; calc := Some c |} d =
    Ok ({| positions := (x' :: row) :: rows; numbers := nums; calc := Some c |},
        {| coord := coord d ++ map (λ x, (x :: row) :: rows) xs;
           elems := elems d ++ map (λ _, nums) xs;
           e_data := e_data d ++
                     map (λ x, lj_energy (rc c) ((x :: row) :: rows) nums) xs;
           f_data := f_data d ++
                     map (λ x, lj_forces (rc c) ((x :: row) :: rows) nums) xs |}).
Proof.
  induction xs as [|x xs IH]; intros x0 row rows nums c d.
  - exists x0. simpl. rewrite !app_nil_r. by destruct d.
  - cbn [scan]. unfold set_position, get_potential_energy, get_forces. simpl.
    edestruct IH as [x' ->]. exists x'.
    simpl. by rewrite <- !app_assoc.
Qed.

(** C9.  Given that ASE reads the formula [H3] as three atoms of atomic
    number 1, the generator returns four lists of 1000 entries each; entry
    [i] holds the positions [[x_i,0,0],[0,1,0],[1,1,0]] with
    [x_i = i * (5/999) + (-5)] (so [x_0 = -5] and [x_999 = 0]), the atomic
    numbers [1,1,1], and the energy and the forces of the Lennard-Jones
    calculator with cutoff 5 at those positions. *)
Theorem get_lj_data_spec :
  symbols2numbers "H3" = [1; 1; 1] →
  ∃ data,
    _get_lj_data symbols2numbers lj_energy lj_forces = Ok data ∧
    List.length (coord data) = 1000%nat ∧
    List.length (elems data) = 1000%nat ∧
    List.length (e_data data) = 1000%nat ∧
    List.length (f_data data) = 1000%nat ∧
    (∀ i, (i < 1000)%nat →
       let x := (float_of_int (Z.of_nat i) *
                   (float_of_int 5 / float_of_int 999) + float_of_int (-5))%Qc in
       let pos := [ [x; float_of_int 0; float_of_int 0];
                    [float_of_int 0; float_of_int 1; float_of_int 0];
                    [float_of_int 1; float_of_int 1; float_of_int 0] ] in
       coord data !! i = Some pos ∧
       elems data !! i = Some [1; 1; 1] ∧
       e_data data !! i = Some (lj_energy (float_of_int 5) pos [1; 1; 1]) ∧
       f_data data !! i = Some (lj_forces (float_of_int 5) pos [1; 1; 1])) ∧
    coord data !! 0%nat =
      Some [ [float_of_int (-5); float_of_int 0; float_of_int 0];
             [float_of_int 0; float_of_int 1; float_of_int 0];
             [float_of_int 1; float_of_int 1; float_of_int 0] ] ∧
    coord data !! 999%nat =
      Some [ [float_of_int 0; float_of_int 0; float_of_int 0];
             [float_of_int 0; float_of_int 1; float_of_int 0];
             [float_of_int 1; float_of_int 1; float_of_int 0] ].
Proof.
  intros HH3. unfold _get_lj_data, Atoms, set_calculator. rewrite HH3.
  cbn [map positions numbers calc].
  destruct (scan_spec (linspace (float_of_int (-5)) (float_of_int 0) 1000)
              (float_of_int 0) [float_of_int 0; float_of_int 0]
              [ [float_of_int 0; float_of_int 1; float_of_int 0];
                [float_of_int 1; float_of_int 1; float_of_int 0] ]
              [1; 1; 1] (LennardJones (float_of_int 5))
              {| coord := []; elems := []; e_data := []; f_data := [] |})
    as [x' Hscan].
  rewrite Hscan. clear Hscan. unfold mbind, result_bind.
  eexists. split; [reflexivity|].
  cbn [coord elems e_data f_data app rc].
  rewrite !length_map, linspace_length.
  do 4 (split; [done|]).
  assert (Hgrid : ∀ i, (i < 1000)%nat →
            linspace (float_of_int (-5)) (float_of_int 0) 1000 !! i =
            Some (float_of_int (Z.of_nat i) *
                    (float_of_int 5 / float_of_int 999) + float_of_int (-5))%Qc).
  { intros i Hi. destruct (decide (i = 999%nat)) as [->|Hne].
    - rewrite (linspace_lookup_last _ _ 1000) by lia.
      f_equal; try (apply Qc_is_canon; reflexivity).
    - rewrite linspace_lookup by lia.
      do 3 f_equal; try (apply Qc_is_canon; reflexivity). }
  split; [|split].
  - intros i Hi. cbv zeta. rewrite !lookup_map, (Hgrid i Hi).
    repeat split; reflexivity.
  - rewrite lookup_map, (Hgrid 0%nat) by lia. cbn [fmap option_fmap option_map].
    do 3 f_equal; try (apply Qc_is_canon; reflexivity).
  - rewrite lookup_map, (linspace_lookup_last _ _ 1000) by lia. reflexivity.
Qed.

End GeneratorFacts.

Lemma get_lj_data_spec_witness :
  toy_symbols2numbers "H3" = [1; 1; 1] ∧
  ∃ data,
    _get_lj_data toy_symbols2numbers toy_energy toy_forces = Ok data ∧
    List.length (e_data data) = 1000%nat ∧
    elems data !! 999%nat = Some [1; 1; 1] ∧
    e_data data !! 999%nat = Some (Q2Qc (-7 # 16)).
Proof.
  split; [reflexivity|].
  destruct (get_lj_data_spec toy_symbols2numbers toy_energy toy_forces eq_refl)
    as (data & Hdata & _ & _ & Hlen & _ & Hi & _).
  exists data. split; [exact Hdata|]. split; [exact Hlen|].
  destruct (Hi 999%nat ltac:(lia)) as (_ & He & Hen & _).
  split; [exact He|]. rewrite Hen.
  f_equal; try (apply Qc_is_canon; vm_compute; reflexivity).
Defined.

End TestPotentialFacts.

(** ** Facts about the command-line parser *)

Module ArgparseFacts.

#[local] Arguments py_int : simpl never.

Lemma getattr_setattr ns n v n' :
  getattr (setattr ns n v) n' =
    if String.eqb n' n then Ok v else getattr ns n'.
Proof.
  induction ns as [|[m w] ns IH]; simpl.
  - destruct (String.eqb n' n) eqn:E; [done|done].
  - destruct (String.eqb n m) eqn:Enm; simpl.
    + apply String.eqb_eq in Enm as ->.
      by destruct (String.eqb n' m).
    + destruct (String.eqb n' m) eqn:En'm.
      * apply String.eqb_eq in En'm as ->.
        destruct (String.eqb m n) eqn:E; [|done].
        apply String.eqb_eq in E as ->. by rewrite String.eqb_refl in Enm.
      * apply IH.
Qed.

Lemma getattr_setattr_eq ns n v : getattr (setattr ns n v) n = Ok v.
Proof. by rewrite getattr_setattr, String.eqb_refl. Qed.

Lemma getattr_setattr_ne ns n v n' :
  n' ≠ n → getattr (setattr ns n v) n' = getattr ns n'.
Proof.
  intros Hne. rewrite getattr_setattr.
  destruct (String.eqb n' n) eqn:E; [|done].
  by apply String.eqb_eq in E.
Qed.

(** [bool] on strings: only the empty string is false. *)
Lemma py_bool_false s : py_bool s = false ↔ s = "".
Proof.
  unfold py_bool. rewrite negb_false_iff. apply String.eqb_eq.
Qed.

Lemma py_bool_true s : py_bool s = true ↔ s ≠ "".
Proof.
  unfold py_bool. rewrite negb_true_iff. apply String.eqb_neq.
Qed.

Lemma split_eq_Some s l r :
  split_eq s = Some (l, r) → s = String.append l (String "=" r).
Proof.
  revert l. induction s as [|c s IH]; intros l; simpl; [done|].
  destruct (Ascii.eqb c "=") eqn:E.
  - apply Ascii.eqb_eq in E as ->. by intros [= <- <-].
  - destruct (split_eq s) as [[l' r']|]; [|done].
    intros [= <- <-]. simpl. f_equal. by apply IH.
Qed.

Lemma find_option_Some tbl o a :
  find_option tbl o = Some a → (o, a) ∈ tbl.
Proof.
  induction tbl as [|[o' a'] tbl IH]; simpl; [done|].
  destruct (String.eqb o o') eqn:E.
  - apply String.eqb_eq in E as ->. intros [= ->]. apply elem_of_cons. by left.
  - intros H. apply elem_of_cons. right. by apply IH.
Qed.

(** The value of an option given with the argument string [s]: a new
    empty list when [s] is [--], else what the option's type makes of
    [s]. *)
Lemma _get_values_Ok t s h v h' :
  _get_values t s h = Ok (v, h') →
  (s = "--" ∧ v = VRef (List.length h) ∧ h' = h ++ [OList []]) ∨
  (s ≠ "--" ∧ convert t s = Ok v ∧ h' = h).
Proof.
  unfold _get_values. destruct (String.eqb s "--") eqn:E.
  - apply String.eqb_eq in E as ->. intros [= <- <-]. by left.
  - apply String.eqb_neq in E. unfold mbind, result_bind.
    destruct (convert t s) as [w|]; [|done]. intros [= <- <-]. by right.
Qed.

Lemma take_action_Ok a args st st' :
  take_action a args st = Ok st' →
  kind a = Store ∧
  ∃ s v h, args = [s] ∧ _get_values (type_ a) s (ps_heap st) = Ok (v, h) ∧
           st' = {| ps_namespace := setattr (ps_namespace st) (dest a) v;
                    ps_seen := action_name a :: ps_seen st;
                    ps_extras := ps_extras st;
                    ps_heap := h |}.
Proof.
  unfold take_action. destruct (kind a); [|destruct args; intros; discriminate].
  destruct args as [|s [|]]; try (intros; discriminate).
  unfold mbind, result_bind.
  destruct (_get_values (type_ a) s (ps_heap st)) as [[v h]|] eqn:E; [|done].
  intros [= <-]. split; [done|]. by exists s, v, h.
Qed.

(** An option token that leads to a successful action is a stored
    option: it acts alone, on its attached argument or on the next
    argument string. *)
Lemma resolve_take_Ok p a o e acts pend extra st st' :
  resolve p a o e = Ok (acts, pend) →
  take_actions (acts ++ extra) st = Ok st' →
  kind a = Store ∧
  ((∃ x, e = Some x ∧ acts = [(a, [x])] ∧ pend = None) ∨
   (e = None ∧ acts = [] ∧ pend = Some a)).
Proof.
  unfold resolve. intros Hr Ht. destruct e as [x|].
  - destruct (kind a) eqn:Hk.
    + simplify_eq. split; [done|]. left. by eexists.
    + exfalso. unfold mbind, result_bind in Hr.
      destruct (cluster _ a o x) as [[l pending]|] eqn:Hc; [|done].
      assert (∃ l', l = (a, []) :: l') as [l' ->].
      { destruct x as [|c x]; simpl in Hc.
        - by destruct (second_is_dash o).
        - destruct (second_is_dash o); [done|].
          destruct (find_option _ _) as [a'|]; [|done].
          destruct x as [|c' x']; [simplify_eq; eauto|].
          destruct (kind a'); [simplify_eq; eauto|].
          unfold mbind, result_bind in Hc.
          destruct (cluster _ a' _ _) as [[l0 p0]|]; [|done].
          simplify_eq. eauto. }
      assert (∃ l'', acts ++ extra = (a, []) :: l'') as [l'' Hl].
      { destruct pending as [a'|]; [destruct (kind a')|];
          simplify_eq; simpl; eauto. }
      rewrite Hl in Ht. simpl in Ht. unfold take_action in Ht.
      rewrite Hk in Ht. done.
  - destruct (kind a) eqn:Hk.
    + simplify_eq. split; [done|]. by right.
    + simplify_eq. simpl in Ht. unfold take_action in Ht.
      rewrite Hk in Ht. done.
Qed.

(** Induction over a successful pass: a token that is not a usable
    option is left over; a stored option acts on its attached argument,
    or on the argument string that follows it. *)
Lemma consume_ok_ind p (P : list (string * arg_class) → parse_state → parse_state → Prop) :
  (∀ st, P [] st st) →
  (∀ s c rest st st',
     match c with Opt (Some _) _ _ => False | _ => True end →
     consume p rest {| ps_namespace := ps_namespace st; ps_seen := ps_seen st;
                       ps_extras := ps_extras st ++ [s];
                       ps_heap := ps_heap st |} = Ok st' →
     P rest {| ps_namespace := ps_namespace st; ps_seen := ps_seen st;
               ps_extras := ps_extras st ++ [s]; ps_heap := ps_heap st |} st' →
     P ((s, c) :: rest) st st') →
  (∀ s a o x rest st st1 st',
     kind a = Store →
     take_action a [x] st = Ok st1 →
     consume p rest st1 = Ok st' →
     P rest st1 st' →
     P ((s, Opt (Some a) o (Some x)) :: rest) st st') →
  (∀ s a o v rest st st1 st',
     kind a = Store →
     take_action a [v] st = Ok st1 →
     consume p rest st1 = Ok st' →
     P rest st1 st' →
     P ((s, Opt (Some a) o None) :: (v, Arg) :: rest) st st') →
  ∀ toks st st', consume p toks st = Ok st' → P toks st st'.
Proof.
  intros Hnil Hskip Hattached Hnext toks.
  assert (H : ∀ n toks, (List.length toks < n)%nat →
                ∀ st st', consume p toks st = Ok st' → P toks st st').
  { clear toks. induction n as [|n IH]; [intros; lia|].
    intros [|[s c] rest] Hlen st st' Hc.
    - simpl in Hc. injection Hc as <-. apply Hnil.
    - simpl in Hlen.
      destruct c as [| |[a|] o e];
        try (simpl in Hc; apply Hskip; [done|done|]; apply IH; [lia|done]).
      simpl in Hc.
      destruct (resolve p a o e) as [[acts [a'|]]|] eqn:Hr; [| |done].
      + destruct rest as [|[v c] rest']; [done|]. destruct c; try done.
        unfold mbind, result_bind in Hc.
        destruct (take_actions _ st) as [st1|] eqn:Ht; [|done].
        destruct (resolve_take_Ok _ _ _ _ _ _ _ _ _ Hr Ht)
          as [Hk [(x & -> & -> & [=]) | (-> & -> & [= ->])]].
        simpl in Ht. unfold mbind, result_bind in Ht.
        destruct (take_action a [v] st) as [st1'|] eqn:Ht'; [|done].
        injection Ht as ->.
        eapply Hnext; [done|done|done|]. apply IH; [simpl in *; lia|done].
      + unfold mbind, result_bind in Hc.
        destruct (take_actions acts st) as [st1|] eqn:Ht; [|done].
        rewrite <- (app_nil_r acts) in Ht.
        destruct (resolve_take_Ok _ _ _ _ _ _ _ _ _ Hr Ht)
          as [Hk [(x & -> & -> & _) | (-> & -> & [=])]].
        simpl in Ht. unfold mbind, result_bind in Ht.
        destruct (take_action a [x] st) as [st1'|] eqn:Ht'; [|done].
        injection Ht as ->.
        eapply Hattached; [done|done|done|]. apply IH; [lia|done]. }
  intros st st'. apply (H (S (List.length toks))). lia.
Qed.

(** What is left over only grows, and a separator is always left
    over. *)
Lemma consume_extras p toks st st' :
  consume p toks st = Ok st' →
  ps_extras st ≠ [] ∨ Exists is_separator toks →
  ps_extras st' ≠ [].
Proof.
  revert toks st st'. apply (consume_ok_ind p (λ toks st st',
    ps_extras st ≠ [] ∨ Exists is_separator toks → ps_extras st' ≠ [])).
  - intros st [H|H]; [done|]. by apply Exists_nil in H.
  - intros s c rest st st' _ _ IH _. apply IH. left. simpl.
    by destruct (ps_extras st).
  - intros s a o x rest st st1 st' _ Ht _ IH [H|H].
    + apply IH. left.
      apply take_action_Ok in Ht as (_ & ? & ? & ? & _ & _ & ->). done.
    + apply Exists_cons in H as [[]|H]. apply IH. by right.
  - intros s a o v rest st st1 st' _ Ht _ IH [H|H].
    + apply IH. left.
      apply take_action_Ok in Ht as (_ & ? & ? & ? & _ & _ & ->). done.
    + apply Exists_cons in H as [[]|H]. apply Exists_cons in H as [[]|H].
      apply IH. by right.
Qed.

(** Parsing never removes an attribute. *)
Lemma consume_keeps_attrs p toks st st' :
  consume p toks st = Ok st' →
  ∀ n, (∃ v, getattr (ps_namespace st) n = Ok v) →
       ∃ v, getattr (ps_namespace st') n = Ok v.
Proof.
  revert toks st st'. apply (consume_ok_ind p (λ toks st st',
    ∀ n, (∃ v, getattr (ps_namespace st) n = Ok v) →
         ∃ v, getattr (ps_namespace st') n = Ok v)).
  - intros st n H. exact H.
  - intros s c rest st st' _ _ IH n H. by apply IH.
  - intros s a o x rest st st1 st' _ Ht _ IH n [w H]. apply IH.
    apply take_action_Ok in Ht as (_ & ? & v & ? & _ & _ & ->). simpl.
    rewrite getattr_setattr. destruct (String.eqb n (dest a)); eauto.
  - intros s a o x rest st st1 st' _ Ht _ IH n [w H]. apply IH.
    apply take_action_Ok in Ht as (_ & ? & v & ? & _ & _ & ->). simpl.
    rewrite getattr_setattr. destruct (String.eqb n (dest a)); eauto.
Qed.

(** An attribute keeps its value when no option token stores to it. *)
Lemma consume_untouched p d toks st st' :
  consume p toks st = Ok st' →
  (∀ s a o e, (s, Opt (Some a) o e) ∈ toks → dest a ≠ d) →
  getattr (ps_namespace st') d = getattr (ps_namespace st) d.
Proof.
  revert toks st st'. apply (consume_ok_ind p (λ toks st st',
    (∀ s a o e, (s, Opt (Some a) o e) ∈ toks → dest a ≠ d) →
    getattr (ps_namespace st') d = getattr (ps_namespace st) d)).
  - intros st _. reflexivity.
  - intros s c rest st st' _ _ IH H. rewrite IH; [done|].
    intros. eapply H. apply elem_of_cons. by right.
  - intros s a o x rest st st1 st' _ Ht _ IH H. rewrite IH.
    + apply take_action_Ok in Ht as (_ & ? & v & ? & _ & _ & ->). simpl.
      apply getattr_setattr_ne. intros ->. eapply H; [|done].
      apply elem_of_cons. by left.
    + intros. eapply H. apply elem_of_cons. by right.
  - intros s a o x rest st st1 st' _ Ht _ IH H. rewrite IH.
    + apply take_action_Ok in Ht as (_ & ? & v & ? & _ & _ & ->). simpl.
      apply getattr_setattr_ne. intros ->. eapply H; [|done].
      apply elem_of_cons. by left.
    + intros. eapply H. do 2 (apply elem_of_cons; right). done.
Qed.

(** How an argument string can come to select an action. *)
Lemma _parse_optional_action p s a o e :
  _parse_optional p s = Ok (Some (Some a, o, e)) →
  (find_option (option_table p) s = Some a ∧ o = s ∧ e = None) ∨
  (∃ x, split_eq s = Some (o, x) ∧ find_option (option_table p) o = Some a ∧
        e = Some x) ∨
  _get_option_tuples p s = [(Some a, o, e)].
Proof.
  unfold _parse_optional. destruct s as [|c s']; [done|].
  destruct (negb (Ascii.eqb c "-")); [done|].
  destruct (find_option (option_table p) (String c s')) as [a0|] eqn:Hf.
  { intros ?. simplify_eq. by left. }
  destruct (String.length (String c s') =? 1)%nat; [done|].
  destruct (split_eq (String c s')) as [[l r]|] eqn:Hs.
  - destruct (find_option (option_table p) l) as [a1|] eqn:Hl.
    + intros ?. simplify_eq. right. left. by exists r.
    + destruct (_get_option_tuples p (String c s')) as [|t [|]] eqn:Ht;
        [|intros; simplify_eq; by right; right|done].
      repeat case_match; done.
  - destruct (_get_option_tuples p (String c s')) as [|t [|]] eqn:Ht;
      [|intros; simplify_eq; by right; right|done].
    repeat case_match; done.
Qed.

Lemma classify_tokens p l toks :
  classify p l = Ok toks →
  ∀ s c, (s, c) ∈ toks →
    s ∈ l ∧
    (c = Arg ∨ c = DashDash ∨
     ∃ o, _parse_optional p s = Ok o ∧ c = class_of o).
Proof.
  revert toks. induction l as [|y l IH]; intros toks; simpl.
  - intros [= <-] s c H. by apply elem_of_nil in H.
  - destruct (String.eqb y "--") eqn:Hy.
    + intros [= <-] s c H. apply elem_of_cons in H as [H|H].
      * simplify_eq. split; [apply elem_of_cons; by left|]. right. by left.
      * apply list_elem_of_In, in_map_iff in H as (s' & [= <- <-] & Hin).
        split; [|by left]. apply elem_of_cons. right. by apply list_elem_of_In.
    + unfold mbind, result_bind.
      destruct (_parse_optional p y) as [oy|] eqn:Hp; [|done].
      destruct (classify p l) as [toks'|]; [|done].
      intros [= <-] s c H. apply elem_of_cons in H as [H|H].
      * simplify_eq. split; [apply elem_of_cons; by left|].
        right. right. by exists oy.
      * destruct (IH toks' eq_refl s c H) as [Hin Hc].
        split; [apply elem_of_cons; by right|done].
Qed.

Lemma prefix_prefixes p s : String.prefix p s = true → In p (prefixes s).
Proof.
  revert p. induction s as [|c s IH]; intros [|c' p]; simpl; auto.
  - done.
  - destruct (ascii_dec c' c) as [->|]; [|done].
    intros H. right. apply in_map. by apply IH.
Qed.

(** *** The parser of [main] *)

Ltac table_cases H :=
  repeat (apply elem_of_cons in H as [H | H]; [simplify_eq|]);
  [.. | by apply elem_of_nil in H].

(** A long option with an attached argument selects its action. *)
Lemma parser_attached o a v :
  (o, a) ∈ option_table parser → o ≠ "-h" →
  _parse_optional parser (String.append o (String "=" v)) =
    Ok (Some (Some a, o, Some v)).
Proof.
  intros H Hne. unfold parser, option_table in H. simpl in H.
  table_cases H; try done; reflexivity.
Qed.

(** An option string selects its action. *)
Lemma parser_exact o a :
  (o, a) ∈ option_table parser →
  _parse_optional parser o = Ok (Some (Some a, o, None)).
Proof.
  intros H. unfold parser, option_table in H. simpl in H.
  table_cases H; reflexivity.
Qed.

Lemma option_tuple_in p s a o e :
  In (Some a, o, e) (_get_option_tuples p s) →
  (o, a) ∈ option_table p ∧
  if second_is_dash s then
    String.prefix (match split_eq s with Some (l, _) => l | None => s end) o = true
  else String.eqb o (take2 s) = true ∨ String.prefix s o = true.
Proof.
  unfold _get_option_tuples. destruct (second_is_dash s).
  - destruct (split_eq s) as [[l r]|]; intros H;
      apply in_flat_map in H as ([o' a'] & Hin & H);
      (destruct (String.prefix _ o') eqn:E; [|done]);
      destruct H as [H|[]]; simplify_eq;
      (split; [by apply list_elem_of_In|done]).
  - intros H. apply in_flat_map in H as ([o' a'] & Hin & H).
    destruct (String.eqb o' (take2 s)) eqn:E1.
    + destruct H as [H|[]]; simplify_eq.
      split; [by apply list_elem_of_In|by left].
    + destruct (String.prefix s o') eqn:E2; [|done].
      destruct H as [H|[]]; simplify_eq.
      split; [by apply list_elem_of_In|by right].
Qed.

Ltac prefix_cases H :=
  apply prefix_prefixes in H; simpl in H;
  repeat (destruct H as [H | H]; [subst|]); [.. | done].

(** The argument strings that select a given stored option of the
    parser start with the shortest prefix that is unique to it. *)
Ltac selects_tac H Hd :=
  let Hf := fresh "Hf" in
  let Hs := fresh "Hs" in
  let Ht := fresh "Ht" in
  let Hin := fresh "Hin" in
  let Htbl := fresh "Htbl" in
  let Hpre := fresh "Hpre" in
  let Hsd := fresh "Hsd" in
  apply _parse_optional_action in H as [(Hf & -> & ->) | [(? & Hs & Hf & ->) | Ht]];
  [ apply find_option_Some in Hf; unfold parser, option_table in Hf; simpl in Hf;
    table_cases Hf; done
  | apply find_option_Some in Hf; apply split_eq_Some in Hs as ->;
    unfold parser, option_table in Hf; simpl in Hf;
    table_cases Hf; done
  | match type of Ht with
    | _ = [?t] =>
        assert (Hin : In t (_get_option_tuples parser _))
          by (rewrite Ht; by left)
    end;
    apply option_tuple_in in Hin as [Htbl Hpre];
    unfold parser, option_table in Htbl; simpl in Htbl;
    table_cases Htbl; try done;
    unfold _get_option_tuples in Ht;
    match type of Ht with
    | context [second_is_dash ?s] =>
        destruct (second_is_dash s) eqn:Hsd;
        [ destruct (split_eq s) as [[? ?]|] eqn:Hs;
          [ apply split_eq_Some in Hs as -> |];
          prefix_cases Hpre; try done; vm_compute in Ht; discriminate
        | destruct Hpre as [Hpre|Hpre];
          [ apply String.eqb_eq in Hpre;
            destruct s as [|? [|? ?]]; simpl in Hpre; discriminate
          | prefix_cases Hpre; try done; vm_compute in Ht; discriminate ] ]
    end ].

Lemma parser_selects_preprocess s a o e :
  _parse_optional parser s = Ok (Some (Some a, o, e)) →
  dest a = "preprocess" →
  String.prefix "--pr" s = true.
Proof. intros H Hd. selects_tac H Hd. Qed.

Lemma parser_selects_cache_data s a o e :
  _parse_optional parser s = Ok (Some (Some a, o, e)) →
  dest a = "cache_data" →
  String.prefix "--c" s = true.
Proof. intros H Hd. selects_tac H Hd. Qed.

Lemma parser_selects_regen_dress s a o e :
  _parse_optional parser s = Ok (Some (Some a, o, e)) →
  dest a = "regen_dress" →
  String.prefix "--r" s = true.
Proof. intros H Hd. selects_tac H Hd. Qed.

(** The parser only adds empty lists to the store. *)
Lemma consume_heap p toks st st' :
  consume p toks st = Ok st' →
  ∃ objs, ps_heap st' = ps_heap st ++ objs ∧ Forall (λ x, x = OList []) objs.
Proof.
  revert toks st st'. apply (consume_ok_ind p (λ toks st st',
    ∃ objs, ps_heap st' = ps_heap st ++ objs ∧ Forall (λ x, x = OList []) objs)).
  - intros st. exists []. by rewrite app_nil_r.
  - intros s c rest st st' _ _ IH. exact IH.
  - intros s a o x rest st st1 st' _ Ht _ (objs & -> & Hf).
    apply take_action_Ok in Ht as (_ & ? & v & hv & [= <-] & Hv & ->). simpl.
    apply _get_values_Ok in Hv as [(_ & _ & ->)|(_ & _ & ->)].
    + exists (OList [] :: objs). rewrite <- app_assoc. split; [done|].
      by constructor.
    + by exists objs.
  - intros s a o x rest st st1 st' _ Ht _ (objs & -> & Hf).
    apply take_action_Ok in Ht as (_ & ? & v & hv & [= <-] & Hv & ->). simpl.
    apply _get_values_Ok in Hv as [(_ & _ & ->)|(_ & _ & ->)].
    + exists (OList [] :: objs). rewrite <- app_assoc. split; [done|].
      by constructor.
    + by exists objs.
Qed.

(** A pass can be cut in front of any option token. *)
Lemma consume_split p toks st st' :
  consume p toks st = Ok st' →
  ∀ toks1 s a o e toks2,
    toks = toks1 ++ (s, Opt (Some a) o e) :: toks2 →
    ∃ st1, consume p toks1 st = Ok st1 ∧
           consume p ((s, Opt (Some a) o e) :: toks2) st1 = Ok st'.
Proof.
  intros Hc. cut (consume p toks st = Ok st' →
    ∀ toks1 s a o e toks2,
      toks = toks1 ++ (s, Opt (Some a) o e) :: toks2 →
      ∃ st1, consume p toks1 st = Ok st1 ∧
             consume p ((s, Opt (Some a) o e) :: toks2) st1 = Ok st');
    [by intros H; apply H|].
  revert toks st st' Hc.
  apply (consume_ok_ind p (λ toks st st',
    consume p toks st = Ok st' →
    ∀ toks1 s a o e toks2,
      toks = toks1 ++ (s, Opt (Some a) o e) :: toks2 →
      ∃ st1, consume p toks1 st = Ok st1 ∧
             consume p ((s, Opt (Some a) o e) :: toks2) st1 = Ok st')).
  - intros st _ [|??] ??????; done.
  - intros s c rest st st' Hc Hrest IH Hall [|t toks1] s0 a o e toks2 Heq;
      simplify_eq/=; [done|].
    destruct (IH Hrest _ _ _ _ _ _ eq_refl) as (st1 & H1 & H2).
    exists st1. split; [|done]. by destruct c as [| |[a'|] ? ?].
  - intros s a o x rest st st1 st' Hk Ht Hrest IH Hall [|t toks1] s0 a0 o0 e0 toks2 Heq;
      simplify_eq/=.
    + exists st. by split.
    + destruct (IH Hrest _ _ _ _ _ _ eq_refl) as (st2 & H1 & H2).
      exists st2. split; [|done]. unfold resolve. rewrite Hk.
      cbn [take_actions]. unfold mbind, result_bind. by rewrite Ht.
  - intros s a o v rest st st1 st' Hk Ht Hrest IH Hall [|t [|t' toks1]] s0 a0 o0 e0 toks2 Heq;
      simplify_eq/=.
    + exists st. by split.
    + destruct (IH Hrest _ _ _ _ _ _ eq_refl) as (st2 & H1 & H2).
      exists st2. split; [|done]. unfold resolve. rewrite Hk.
      cbn [take_actions app]. unfold mbind, result_bind. by rewrite Ht.
Qed.

(** What a pass does at an option token: the option is a stored one, it
    takes the argument attached to it, or else the argument string that
    follows, and the pass goes on after that. *)
Lemma consume_opt_inv p s a o e toks st st' :
  consume p ((s, Opt (Some a) o e) :: toks) st = Ok st' →
  kind a = Store ∧
  ∃ v st1 rest,
    take_action a [v] st = Ok st1 ∧ consume p rest st1 = Ok st' ∧
    ((e = Some v ∧ rest = toks) ∨ (e = None ∧ toks = (v, Arg) :: rest)).
Proof.
  intros Hc.
  assert (H : ∀ toks0 st st', consume p toks0 st = Ok st' →
    ∀ s a o e toks, toks0 = (s, Opt (Some a) o e) :: toks →
    kind a = Store ∧
    ∃ v st1 rest,
      take_action a [v] st = Ok st1 ∧ consume p rest st1 = Ok st' ∧
      ((e = Some v ∧ rest = toks) ∨ (e = None ∧ toks = (v, Arg) :: rest))).
  { apply (consume_ok_ind p (λ toks0 st st',
      ∀ s a o e toks, toks0 = (s, Opt (Some a) o e) :: toks →
      kind a = Store ∧
      ∃ v st1 rest,
        take_action a [v] st = Ok st1 ∧ consume p rest st1 = Ok st' ∧
        ((e = Some v ∧ rest = toks) ∨ (e = None ∧ toks = (v, Arg) :: rest)))).
    - intros; done.
    - intros ? c ? ? ? Hu _ _ ? ? ? ? ? Heq. by simplify_eq.
    - intros s0 a0 o0 x rest0 st0 st1 st0' Hk Ht Hrest _ s1 a1 o1 e1 toks1 Heq.
      simplify_eq. split; [done|]. exists x, st1, toks1. eauto.
    - intros s0 a0 o0 v rest0 st0 st1 st0' Hk Ht Hrest _ s1 a1 o1 e1 toks1 Heq.
      simplify_eq. split; [done|]. exists v, st1, rest0. eauto. }
  by eapply H.
Qed.

Lemma classify_app p l1 l2 toks :
  classify p (l1 ++ l2) = Ok toks →
  Exists is_separator toks ∨
  ∃ t1 t2, classify p l1 = Ok t1 ∧ classify p l2 = Ok t2 ∧ toks = t1 ++ t2.
Proof.
  revert toks. induction l1 as [|y l1 IH]; intros toks; simpl.
  - intros H. right. by exists [], toks.
  - destruct (String.eqb y "--"); [intros [= <-]; left; by constructor|].
    unfold mbind, result_bind.
    destruct (_parse_optional p y) as [oy|]; [|done].
    destruct (classify p (l1 ++ l2)) as [toks'|]; [|done].
    intros [= <-].
    destruct (IH toks' eq_refl) as [Hsep | (t1 & t2 & -> & H2 & ->)].
    + left. by apply Exists_cons_tl.
    + right. by exists ((y, class_of oy) :: t1), t2.
Qed.

Lemma classify_cons p s l toks :
  classify p (s :: l) = Ok toks →
  Exists is_separator toks ∨
  ∃ o t, s ≠ "--" ∧ _parse_optional p s = Ok o ∧ classify p l = Ok t ∧
         toks = (s, class_of o) :: t.
Proof.
  simpl. destruct (String.eqb s "--") eqn:E;
    [intros [= <-]; left; by constructor|].
  apply String.eqb_neq in E. unfold mbind, result_bind.
  destruct (_parse_optional p s) as [o|]; [|done].
  destruct (classify p l) as [t|]; [|done].
  intros [= <-]. right. by exists o, t.
Qed.

Lemma classify_head p l v c rest :
  classify p l = Ok ((v, c) :: rest) →
  ∃ l', l = v :: l' ∧ (c = DashDash ∨ (v ≠ "--" ∧ classify p l' = Ok rest)).
Proof.
  destruct l as [|y l]; [done|]. simpl.
  destruct (String.eqb y "--") eqn:E.
  - intros [= <- <- <-]. exists l. split; [done|]. by left.
  - apply String.eqb_neq in E. unfold mbind, result_bind.
    destruct (_parse_optional p y) as [o|]; [|done].
    destruct (classify p l) as [t|] eqn:Hcl; [|done].
    intros H. injection H as -> <- <-. exists l. split; [done|].
    right. by split.
Qed.

Lemma parse_args_inv p argv h ns h' :
  parse_args p argv h = Ok (ns, h') →
  ∃ toks st,
    classify p argv = Ok toks ∧
    consume p toks {| ps_namespace := defaults p; ps_seen := [];
                      ps_extras := []; ps_heap := h |} = Ok st ∧
    ps_extras st = [] ∧ ns = ps_namespace st ∧ h' = ps_heap st.
Proof.
  unfold parse_args, mbind, result_bind.
  destruct (classify p argv) as [toks|]; [|done].
  destruct (consume p toks _) as [st|] eqn:Hc; [|done].
  destruct (missing_required p (ps_seen st)); [done|].
  destruct (ps_extras st) eqn:He; [|done].
  intros [= <- <-]. by exists toks, st.
Qed.

(** The store of an accepted command line is the one before parsing,
    with empty lists added. *)
Lemma parse_args_heap p argv h ns h' :
  parse_args p argv h = Ok (ns, h') →
  ∃ objs, h' = h ++ objs ∧ Forall (λ x, x = OList []) objs.
Proof.
  intros (toks & st & _ & Hco & _ & _ & ->)%parse_args_inv.
  by apply consume_heap in Hco.
Qed.

(** What an accepted command line holds for an option: the value made
    from what was given with the last argument string that selects the
    option, attached to it or as the argument string that follows. *)
Lemma parse_value p before s after h ns h' a o e :
  parse_args p (before ++ s :: after) h = Ok (ns, h') →
  _parse_optional p s = Ok (Some (Some a, o, e)) →
  (∀ s', s' ∈ match e with Some _ => after | None => tail after end →
         ¬ selects p s' (dest a)) →
  kind a = Store ∧
  ∃ v val objs0 hv' objs,
    match e with
    | Some x => v = x
    | None => v ≠ "--" ∧ ∃ after', after = v :: after'
    end ∧
    _get_values (type_ a) v (h ++ objs0) = Ok (val, hv') ∧
    getattr ns (dest a) = Ok val ∧ h' = hv' ++ objs.
Proof.
  intros (toks & st & Hcl & Hco & Hex & -> & ->)%parse_args_inv Hs Hlater.
  assert (Hnosep : ¬ Exists is_separator toks).
  { intros Hsep. eapply consume_extras; [exact Hco| |exact Hex]. by right. }
  apply classify_app in Hcl as [?|(t1 & t2 & _ & H2 & ->)]; [done|].
  apply classify_cons in H2 as [Hsep|(o' & t & _ & Hs' & Hafter & ->)].
  { destruct Hnosep. apply Exists_app. by right. }
  rewrite Hs in Hs'. injection Hs' as <-. simpl in Hco.
  destruct (consume_split _ _ _ _ Hco _ _ _ _ _ _ eq_refl) as (st1 & Hc1 & Hc2).
  apply consume_opt_inv in Hc2 as (Hk & v & st2 & rest & Ht & Hrest & Hcase).
  split; [done|].
  apply take_action_Ok in Ht as (_ & ? & val & hv' & [= <-] & Hv & ->).
  destruct (consume_heap _ _ _ _ Hc1) as (objs0 & Hh0 & _). simpl in Hh0.
  rewrite Hh0 in Hv.
  destruct (consume_heap _ _ _ _ Hrest) as (objs & Hh & _). simpl in Hh.
  exists v, val, objs0, hv', objs.
  assert (Hval : ∀ after',
    classify p after' = Ok rest →
    (∀ s', s' ∈ after' →
       s' ∈ match e with Some _ => after | None => tail after end) →
    getattr (ps_namespace st) (dest a) = Ok val).
  { intros after' Hcl' Hin.
    rewrite (consume_untouched _ (dest a) _ _ _ Hrest).
    - simpl. apply getattr_setattr_eq.
    - intros s' a' o' e' Hin' Hd.
      destruct (classify_tokens _ _ _ Hcl' _ _ Hin')
        as [Hs' [?|[?|(oo & Hp & Hc)]]]; try done.
      destruct oo as [[[a'' o''] e'']|]; [|done]. simpl in Hc. simplify_eq.
      eapply Hlater; [apply Hin; exact Hs'|]. by eexists _, _, _. }
  destruct Hcase as [[-> ->]|[-> ->]].
  - split; [done|]. split; [done|]. split; [|done]. by eapply Hval.
  - apply classify_head in Hafter as (after' & -> & [?|[Hne Hcl']]); [done|].
    split; [split; [done|by exists after']|]. split; [done|].
    split; [|done]. by eapply Hval.
Qed.

(** What is held for an option of type [t] that was given the value
    [v]. *)
Lemma stored_value t v h objs0 val hv' objs ns d :
  _get_values t v (h ++ objs0) = Ok (val, hv') →
  getattr ns d = Ok val →
  if String.eqb v "--" then
    ∃ k, getattr ns d = Ok (VRef k) ∧ (List.length h <= k)%nat ∧
         (hv' ++ objs) !! k = Some (OList []) ∧
         py_truthy (hv' ++ objs) (VRef k) = false
  else
    match t with
    | TStr => getattr ns d = Ok (VStr v)
    | TInt => ∃ z, py_int v = Some z ∧ getattr ns d = Ok (VInt z)
    | TBool => getattr ns d = Ok (VBool (py_bool v))
    end.
Proof.
  intros Hv Hg. apply _get_values_Ok in Hv as [(-> & -> & ->)|(Hne & Hc & ->)].
  - simpl. exists (List.length (h ++ objs0)). split; [done|].
    split; [rewrite length_app; lia|].
    assert (Hl : ((h ++ objs0) ++ [OList []] ++ objs) !! List.length (h ++ objs0)
                 = Some (OList [])).
    { rewrite lookup_app_r by lia. by rewrite Nat.sub_diag. }
    rewrite <- app_assoc. split; [done|]. unfold py_truthy. by rewrite Hl.
  - apply String.eqb_neq in Hne. rewrite Hne. unfold convert in Hc.
    destruct t.
    + by simplify_eq.
    + destruct (py_int v) as [z|]; [|done]. simplify_eq. by exists z.
    + by simplify_eq.
Qed.

Lemma _parse_optional_in p s a o e :
  _parse_optional p s = Ok (Some (Some a, o, e)) → (o, a) ∈ option_table p.
Proof.
  intros H.
  apply _parse_optional_action in H as [(Hf & -> & _) | [(x & _ & Hf & _) | Ht]].
  - by apply find_option_Some.
  - by apply find_option_Some.
  - eapply option_tuple_in. rewrite Ht. by left.
Qed.

Lemma parser_store_option o a :
  (o, a) ∈ option_table parser → kind a = Store → o ≠ "-h".
Proof.
  intros H Hk ->. unfold parser, option_table in H. simpl in H.
  table_cases H; done.
Qed.

(** For the parser of [main]: the value given to a stored option, attached
    with [=] or as the next argument string, anywhere on an accepted
    command line on which no later argument string selects the option. *)
Lemma parse_given o a before v after h ns h' :
  (o, a) ∈ option_table parser → kind a = Store →
  parse_args parser (before ++ String.append o (String "=" v) :: after) h
    = Ok (ns, h') ∨
  parse_args parser (before ++ o :: v :: after) h = Ok (ns, h') →
  (∀ s', s' ∈ after → ¬ selects parser s' (dest a)) →
  if String.eqb v "--" then
    ∃ k, getattr ns (dest a) = Ok (VRef k) ∧ (List.length h <= k)%nat ∧
         h' !! k = Some (OList []) ∧ py_truthy h' (VRef k) = false
  else
    match type_ a with
    | TStr => getattr ns (dest a) = Ok (VStr v)
    | TInt => ∃ z, py_int v = Some z ∧ getattr ns (dest a) = Ok (VInt z)
    | TBool => getattr ns (dest a) = Ok (VBool (py_bool v))
    end.
Proof.
  intros Ho Hk Hparse Hlater.
  pose proof (parser_store_option _ _ Ho Hk) as Hne.
  destruct Hparse as [Hparse|Hparse].
  - destruct (parse_value _ _ _ _ _ _ _ _ _ _ Hparse
                (parser_attached _ _ v Ho Hne) Hlater)
      as (_ & v' & val & hv & hv' & objs & -> & Hv & Hg & ->).
    by eapply stored_value.
  - destruct (parse_value _ _ _ _ _ _ _ _ _ _ Hparse (parser_exact _ _ Ho) Hlater)
      as (_ & v' & val & hv & hv' & objs & (_ & after' & [= <- <-]) & Hv & Hg & ->).
    by eapply stored_value.
Qed.

(** An attribute is at its default when no argument string selects its
    option. *)
Lemma parse_unselected p d argv h ns h' :
  parse_args p argv h = Ok (ns, h') →
  (∀ s, s ∈ argv → ¬ selects p s d) →
  getattr ns d = getattr (defaults p) d.
Proof.
  intros (toks & st & Hcl & Hco & Hex & -> & ->)%parse_args_inv Hno.
  rewrite (consume_untouched _ d _ _ _ Hco); [done|].
  intros s a o e Hin Hd.
  destruct (classify_tokens _ _ _ Hcl _ _ Hin) as [Hs [?|[?|(oo & Hp & Hc)]]];
    try done.
  destruct oo as [[[a' o'] e']|]; [|done]. simpl in Hc. simplify_eq.
  eapply Hno; [exact Hs|]. by eexists _, _, _.
Qed.

Lemma parse_default d m argv h ns h' :
  (∀ s a o e, _parse_optional parser s = Ok (Some (Some a, o, e)) →
              dest a = d → String.prefix m s = true) →
  parse_args parser argv h = Ok (ns, h') →
  (∀ s, s ∈ argv → String.prefix m s = false) →
  getattr ns d = getattr (defaults parser) d.
Proof.
  intros Hsel Hparse Hno. eapply parse_unselected; [exact Hparse|].
  intros s Hs (a & o & e & Hp & Hd).
  specialize (Hsel _ _ _ _ Hp Hd). by rewrite (Hno _ Hs) in Hsel.
Qed.

(** Every attribute that has a default is in the parsed namespace. *)
Lemma parse_attrs argv h ns h' n v0 :
  parse_args parser argv h = Ok (ns, h') →
  getattr (defaults parser) n = Ok v0 →
  ∃ v, getattr ns n = Ok v.
Proof.
  intros (toks & st & Hcl & Hco & Hex & -> & ->)%parse_args_inv Hn.
  eapply consume_keeps_attrs; [exact Hco|]. simpl. eauto.
Qed.

(** C10.  The three flags declared with [type=bool] are converted by
    [bool], which is true on every string but the empty one, so that
    [False], [false] and [0] give [True].  On an accepted command line
    that gives one of these flags a value (attached with [=], or as the
    next argument string), anywhere on the line, with no later argument
    string selecting the flag (none starts with its shortest unique
    prefix): when the value is not [--] the namespace holds [bool] of it,
    in particular [--preprocess=False] gives [preprocess] the value
    [True]; when the value is [--] the namespace holds a new empty list,
    which is false as a truth value.  The same holds for whatever
    argument string selects the flag, its name or an abbreviation of it,
    when no later argument string selects the flag.  When no argument
    string selects the flag (in particular when none starts with its
    shortest unique prefix) an accepted command line leaves it at its
    default: [preprocess] false, [cache_data] and [regen_dress] true. *)
Theorem bool_flags_coercion :
  (∀ v, convert TBool v = Ok (VBool (py_bool v))) ∧
  (∀ v, py_bool v = true ↔ v ≠ "") ∧
  (py_bool "False" = true ∧ py_bool "false" = true ∧ py_bool "0" = true ∧
   py_bool "" = false) ∧
  (∀ flag d m,
     (flag, d, m) ∈ [ ("--preprocess", "preprocess", "--pr");
                      ("--cache-data", "cache_data", "--c");
                      ("--regen-dress", "regen_dress", "--r") ] →
     ∀ before v after h ns h',
       parse_args parser
         (before ++ String.append flag (String "=" v) :: after) h
         = Ok (ns, h') ∨
       parse_args parser (before ++ flag :: v :: after) h = Ok (ns, h') →
       (∀ s, s ∈ after → String.prefix m s = false) →
       if String.eqb v "--" then
         ∃ k, getattr ns d = Ok (VRef k) ∧ (List.length h <= k)%nat ∧
              h' !! k = Some (OList []) ∧ py_truthy h' (VRef k) = false
       else getattr ns d = Ok (VBool (py_bool v))) ∧
  (∀ before after h ns h',
     parse_args parser (before ++ "--preprocess=False" :: after) h
       = Ok (ns, h') →
     (∀ s, s ∈ after → String.prefix "--pr" s = false) →
     getattr ns "preprocess" = Ok (VBool true)) ∧
  (∀ d,
     d ∈ [ "preprocess"; "cache_data"; "regen_dress" ] →
     ∀ before s after h ns h' a o e,
       parse_args parser (before ++ s :: after) h = Ok (ns, h') →
       _parse_optional parser s = Ok (Some (Some a, o, e)) → dest a = d →
       (∀ s', s' ∈ match e with Some _ => after | None => tail after end →
              ¬ selects parser s' d) →
       ∃ v, match e with
            | Some x => v = x
            | None => ∃ after', after = v :: after'
            end ∧
            if String.eqb v "--" then
              ∃ k, getattr ns d = Ok (VRef k) ∧ (List.length h <= k)%nat ∧
                   h' !! k = Some (OList []) ∧
                   py_truthy h' (VRef k) = false
            else getattr ns d = Ok (VBool (py_bool v))) ∧
  (∀ argv h ns h',
     parse_args parser argv h = Ok (ns, h') →
     ((∀ s, s ∈ argv → String.prefix "--pr" s = false) →
      getattr ns "preprocess" = Ok (VBool false)) ∧
     ((∀ s, s ∈ argv → String.prefix "--c" s = false) →
      getattr ns "cache_data" = Ok (VBool true)) ∧
     ((∀ s, s ∈ argv → String.prefix "--r" s = false) →
      getattr ns "regen_dress" = Ok (VBool true)) ∧
     ((∀ s, s ∈ argv → ¬ selects parser s "preprocess") →
      getattr ns "preprocess" = Ok (VBool false)) ∧
     ((∀ s, s ∈ argv → ¬ selects parser s "cache_data") →
      getattr ns "cache_data" = Ok (VBool true)) ∧
     ((∀ s, s ∈ argv → ¬ selects parser s "regen_dress") →
      getattr ns "regen_dress" = Ok (VBool true))).
Proof.
  assert (Hflags : ∀ flag d m,
     (flag, d, m) ∈ [ ("--preprocess", "preprocess", "--pr");
                      ("--cache-data", "cache_data", "--c");
                      ("--regen-dress", "regen_dress", "--r") ] →
     ∃ a, (flag, a) ∈ option_table parser ∧ kind a = Store ∧ dest a = d ∧
          type_ a = TBool ∧
          ∀ s a' o e, _parse_optional parser s = Ok (Some (Some a', o, e)) →
                      dest a' = d → String.prefix m s = true).
  { intros flag d m H. table_cases H; eexists;
      (split;
        [ unfold parser, option_table; simpl;
          repeat first [ by apply elem_of_cons; left | apply elem_of_cons; right ]
        | split; [done|]; split; [done|]; split; [done|] ]).
    - apply parser_selects_preprocess.
    - apply parser_selects_cache_data.
    - apply parser_selects_regen_dress. }
  assert (Hgiven : ∀ flag d m,
     (flag, d, m) ∈ [ ("--preprocess", "preprocess", "--pr");
                      ("--cache-data", "cache_data", "--c");
                      ("--regen-dress", "regen_dress", "--r") ] →
     ∀ before v after h ns h',
       parse_args parser
         (before ++ String.append flag (String "=" v) :: after) h
         = Ok (ns, h') ∨
       parse_args parser (before ++ flag :: v :: after) h = Ok (ns, h') →
       (∀ s, s ∈ after → String.prefix m s = false) →
       if String.eqb v "--" then
         ∃ k, getattr ns d = Ok (VRef k) ∧ (List.length h <= k)%nat ∧
              h' !! k = Some (OList []) ∧ py_truthy h' (VRef k) = false
       else getattr ns d = Ok (VBool (py_bool v))).
  { intros flag d m Hfd before v after h ns h' Hparse Hno.
    destruct (Hflags _ _ _ Hfd) as (a & Ha & Hk & <- & Hty & Hsel).
    assert (Hlater : ∀ s', s' ∈ after → ¬ selects parser s' (dest a)).
    { intros s' Hin (a' & o' & e' & Hp & Hd).
      specialize (Hsel _ _ _ _ Hp Hd). by rewrite (Hno _ Hin) in Hsel. }
    pose proof (parse_given _ _ _ _ _ _ _ _ Ha Hk Hparse Hlater) as H.
    by rewrite Hty in H. }
  split; [done|]. split; [apply py_bool_true|]. split; [done|].
  split; [exact Hgiven|]. split; [|split].
  - intros before after h ns h' Hparse Hno.
    refine (Hgiven "--preprocess" "preprocess" "--pr" _ before "False" after
              h ns h' (or_introl Hparse) Hno).
    apply elem_of_cons. by left.
  - intros d Hdm before s after h ns h' a o e Hparse Hs Hd Hno.
    assert (Hty : type_ a = TBool).
    { pose proof (_parse_optional_in _ _ _ _ _ Hs) as Hin.
      unfold parser, option_table in Hin. simpl in Hin.
      table_cases Hin; table_cases Hdm; done. }
    assert (Hlater : ∀ s',
      s' ∈ match e with Some _ => after | None => tail after end →
      ¬ selects parser s' (dest a)).
    { intros s' Hin. rewrite Hd. by apply Hno. }
    destruct (parse_value _ _ _ _ _ _ _ _ _ _ Hparse Hs Hlater)
      as (_ & v & val & objs0 & hv' & objs & Hv & Hg & Hget & ->).
    exists v. split; [destruct e; [done|by destruct Hv]|].
    rewrite Hd in Hget.
    pose proof (stored_value _ _ _ _ _ _ objs _ _ Hg Hget) as H.
    by rewrite Hty in H.
  - intros argv h ns h' Hparse. repeat split; intros Hno.
    + by rewrite (parse_default "preprocess" "--pr" _ _ _ _
                    parser_selects_preprocess Hparse Hno).
    + by rewrite (parse_default "cache_data" "--c" _ _ _ _
                    parser_selects_cache_data Hparse Hno).
    + by rewrite (parse_default "regen_dress" "--r" _ _ _ _
                    parser_selects_regen_dress Hparse Hno).
    + by rewrite (parse_unselected _ "preprocess" _ _ _ _ Hparse Hno).
    + by rewrite (parse_unselected _ "cache_data" _ _ _ _ Hparse Hno).
    + by rewrite (parse_unselected _ "regen_dress" _ _ _ _ Hparse Hno).
Qed.

Lemma required_parse_1 :
  parse_args parser ("--preprocess=False" :: required_argv) [] =
    Ok (required_ns true true true, []).
Proof. vm_compute. reflexivity. Qed.

Lemma required_parse_2 :
  parse_args parser (required_argv ++ ["--cache-data"; "0"]) [] =
    Ok (required_ns false true true, []).
Proof. vm_compute. reflexivity. Qed.

Lemma required_parse_3 :
  parse_args parser
    (["--model-dir=my_model"; "--regen-dress="] ++ tail required_argv) [] =
    Ok (required_ns false true false, []).
Proof. vm_compute. reflexivity. Qed.

Lemma required_parse_4 :
  parse_args parser required_argv [] = Ok (required_ns false true true, []).
Proof. vm_compute. reflexivity. Qed.

Lemma required_parse_dashes :
  parse_args parser (required_argv ++ ["--preprocess=--"]) [] =
    Ok (setattr (required_ns false true true) "preprocess" (VRef 0%nat),
        [OList []]).
Proof. vm_compute. reflexivity. Qed.

Lemma required_argv_prefix m :
  m = "--pr" ∨ m = "--c" ∨ m = "--r" →
  ∀ s, s ∈ required_argv → String.prefix m s = false.
Proof.
  intros Hm s Hs. unfold required_argv in Hs.
  repeat (apply elem_of_cons in Hs as [->|Hs];
          [by destruct Hm as [->|[->| ->]]|]).
  by apply elem_of_nil in Hs.
Qed.

(** C10 as stated fails at the value [--]: it is not the empty string,
    and what the namespace holds for the flag is not [True] but an empty
    list, which is false as a truth value. *)
Lemma bool_flags_coercion_counterexample :
  ∃ ns h' k,
    parse_args parser (required_argv ++ ["--preprocess=--"]) [] = Ok (ns, h') ∧
    "--" ≠ "" ∧
    getattr ns "preprocess" = Ok (VRef k) ∧
    h' !! k = Some (OList []) ∧
    getattr ns "preprocess" ≠ Ok (VBool true) ∧
    py_truthy h' (VRef k) = false.
Proof.
  eexists _, _, _. split; [exact required_parse_dashes|].
  split; [done|]. split; [reflexivity|]. split; [reflexivity|].
  split; [|reflexivity]. vm_compute. discriminate.
Qed.

Lemma bool_flags_coercion_witness :
  (parse_args parser ("--preprocess=False" :: required_argv) [] =
     Ok (required_ns true true true, []) ∧
   getattr (required_ns true true true) "preprocess" = Ok (VBool true)) ∧
  (parse_args parser (required_argv ++ ["--cache-data"; "0"]) [] =
     Ok (required_ns false true true, []) ∧
   getattr (required_ns false true true) "cache_data" = Ok (VBool (py_bool "0"))) ∧
  (parse_args parser
     (["--model-dir=my_model"; "--regen-dress="] ++ tail required_argv) [] =
     Ok (required_ns false true false, []) ∧
   getattr (required_ns false true false) "regen_dress" = Ok (VBool (py_bool ""))) ∧
  (∃ k, getattr (setattr (required_ns false true true) "preprocess" (VRef 0%nat))
          "preprocess" = Ok (VRef k) ∧
        (List.length (@nil obj) <= k)%nat ∧
        [OList []] !! k = Some (OList []) ∧
        py_truthy [OList []] (VRef k) = false) ∧
  ((∀ s, s ∈ required_argv → String.prefix "--pr" s = false) ∧
   getattr (required_ns false true true) "preprocess" = Ok (VBool false)).
Proof.
  destruct bool_flags_coercion as (_ & _ & _ & Hgiven & Hfalse & _ & Hdefault).
  split; [|split; [|split; [|split]]].
  - split; [exact required_parse_1|].
    exact (Hfalse [] required_argv _ _ _ required_parse_1
             (required_argv_prefix "--pr" (or_introl eq_refl))).
  - split; [exact required_parse_2|].
    refine (Hgiven "--cache-data" "cache_data" "--c" _ required_argv "0" []
              _ _ _ (or_intror required_parse_2) _).
    + apply elem_of_cons; right; apply elem_of_cons; by left.
    + intros s Hs. by apply elem_of_nil in Hs.
  - split; [exact required_parse_3|].
    refine (Hgiven "--regen-dress" "regen_dress" "--r" _
              ["--model-dir=my_model"] "" (tail required_argv)
              _ _ _ (or_introl required_parse_3) _).
    + do 2 (apply elem_of_cons; right); apply elem_of_cons; by left.
    + intros s Hs. apply (required_argv_prefix "--r"); [auto|].
      unfold required_argv. apply elem_of_cons. by right.
  - refine (Hgiven "--preprocess" "preprocess" "--pr" _ required_argv "--" []
              _ _ _ (or_introl required_parse_dashes) _).
    + apply elem_of_cons; by left.
    + intros s Hs. by apply elem_of_nil in Hs.
  - split; [exact (required_argv_prefix "--pr" (or_introl eq_refl))|].
    destruct (Hdefault _ _ _ _ required_parse_4) as (Hp & _).
    exact (Hp (required_argv_prefix "--pr" (or_introl eq_refl))).
Defined.

Lemma _get_values_convert t v h val :
  v ≠ "--" → convert t v = Ok val → _get_values t v h = Ok (val, h).
Proof.
  intros Hne Hc. unfold _get_values. apply String.eqb_neq in Hne.
  rewrite Hne. unfold mbind, result_bind. by rewrite Hc.
Qed.

Lemma py_int_not_dashes v z : py_int v = Some z → v ≠ "--".
Proof. by intros H ->. Qed.

Lemma _get_values_int v h z :
  py_int v = Some z → _get_values TInt v h = Ok (VInt z, h).
Proof.
  intros Hz. apply _get_values_convert; [by eapply py_int_not_dashes|].
  unfold convert. by rewrite Hz.
Qed.

Lemma parse_full md pf td ed ts es bs pre cd sb rd zts zes zbs zsb h :
  md ≠ "--" → pf ≠ "--" → td ≠ "--" → ed ≠ "--" →
  pre ≠ "--" → cd ≠ "--" → rd ≠ "--" →
  py_int ts = Some zts → py_int es = Some zes →
  py_int bs = Some zbs → py_int sb = Some zsb →
  parse_args parser (full_argv md pf td ed ts es bs pre cd sb rd) h =
    Ok ([ ("model_dir", VStr md); ("params_file", VStr pf);
          ("train_data", VStr td); ("eval_data", VStr ed);
          ("train_steps", VInt zts); ("eval_steps", VInt zes);
          ("batch_size", VInt zbs); ("preprocess", VBool (py_bool pre));
          ("cache_data", VBool (py_bool cd)); ("shuffle_buffer", VInt zsb);
          ("regen_dress", VBool (py_bool rd)) ], h).
Proof.
  intros Hmd Hpf Htd Hed Hpre Hcd Hrd Hts Hes Hbs Hsb. unfold full_argv.
  cbv -[py_int py_bool _get_values].
  rewrite (_get_values_convert TStr md h (VStr md) Hmd eq_refl).
  cbv -[py_int py_bool _get_values].
  rewrite (_get_values_convert TStr pf h (VStr pf) Hpf eq_refl).
  cbv -[py_int py_bool _get_values].
  rewrite (_get_values_convert TStr td h (VStr td) Htd eq_refl).
  cbv -[py_int py_bool _get_values].
  rewrite (_get_values_convert TStr ed h (VStr ed) Hed eq_refl).
  cbv -[py_int py_bool _get_values].
  rewrite (_get_values_int ts h zts Hts). cbv -[py_int py_bool _get_values].
  rewrite (_get_values_int es h zes Hes). cbv -[py_int py_bool _get_values].
  rewrite (_get_values_int bs h zbs Hbs). cbv -[py_int py_bool _get_values].
  rewrite (_get_values_convert TBool pre h (VBool (py_bool pre)) Hpre eq_refl).
  cbv -[py_int py_bool _get_values].
  rewrite (_get_values_convert TBool cd h (VBool (py_bool cd)) Hcd eq_refl).
  cbv -[py_int py_bool _get_values].
  rewrite (_get_values_int sb h zsb Hsb). cbv -[py_int py_bool _get_values].
  rewrite (_get_values_convert TBool rd h (VBool (py_bool rd)) Hrd eq_refl).
  reflexivity.
Qed.

End ArgparseFacts.

(** ** The entry point *)

Section MainFacts.
Context {source model train_spec eval_spec : Type}.
Variable ext : @externals source model train_spec eval_spec.

Import ArgparseFacts.

Lemma main_parsed argv args h v1 v2 v3 v4 v5 v6 v7 v8 v9 v10 v11 s :
  parse_args parser argv (st_heap s) = Ok (args, h) →
  getattr args "model_dir" = Ok v1 → getattr args "params_file" = Ok v2 →
  getattr args "train_data" = Ok v3 → getattr args "eval_data" = Ok v4 →
  getattr args "train_steps" = Ok v5 → getattr args "eval_steps" = Ok v6 →
  getattr args "batch_size" = Ok v7 → getattr args "preprocess" = Ok v8 →
  getattr args "cache_data" = Ok v9 → getattr args "shuffle_buffer" = Ok v10 →
  getattr args "regen_dress" = Ok v11 →
  main ext argv s =
    (let (r, s') := trainner ext v1 v2 v3 v4 v5 v6 v7 v8 v9 v10 v11
                      {| st_heap := h; st_log := st_log s |} in
     (match r with Ok _ => Ok VNone | Raise e => Raise e end, s')).
Proof.
  intros Hp H1 H2 H3 H4 H5 H6 H7 H8 H9 H10 H11.
  unfold main, m_parse_args, mbind, M_bind, m_pure, mret, M_ret.
  rewrite Hp, H1, H2, H3, H4, H5, H6, H7, H8, H9, H10, H11.
  by destruct (trainner ext v1 v2 v3 v4 v5 v6 v7 v8 v9 v10 v11 _) as [[?|?] ?].
Qed.

(** C8.  When the command line is rejected, [main] ends with the
    parser's exit and calls nothing.  When it is accepted, the namespace
    has the eleven attributes, and [main] is the call of [trainner] on
    them as they are, in the order model directory, params file, train
    data, eval data, train steps, eval steps, batch size, preprocess,
    cache data, shuffle buffer, regenerate dress, in the store the parser
    leaves (the one before, with the empty lists made for options given
    the value [--]), with the result dropped.  On a command line that
    gives all eleven options a value other than [--], [trainner] receives
    the four strings as they are, the four integers as [int] reads them,
    and the three flags as [bool] reads them, in the store as it was. *)
Theorem main_forwards :
  (∀ argv s,
     match parse_args parser argv (st_heap s) with
     | Raise e => main ext argv s = (Raise e, s)
     | Ok (args, h) =>
         (∃ objs, h = st_heap s ++ objs ∧ Forall (λ x, x = OList []) objs) ∧
         ∃ model_dir params_file train_data eval_data train_steps eval_steps
           batch_size preprocess cache_data shuffle_buffer regen_dress,
           getattr args "model_dir" = Ok model_dir ∧
           getattr args "params_file" = Ok params_file ∧
           getattr args "train_data" = Ok train_data ∧
           getattr args "eval_data" = Ok eval_data ∧
           getattr args "train_steps" = Ok train_steps ∧
           getattr args "eval_steps" = Ok eval_steps ∧
           getattr args "batch_size" = Ok batch_size ∧
           getattr args "preprocess" = Ok preprocess ∧
           getattr args "cache_data" = Ok cache_data ∧
           getattr args "shuffle_buffer" = Ok shuffle_buffer ∧
           getattr args "regen_dress" = Ok regen_dress ∧
           main ext argv s =
             (let (r, s') :=
                trainner ext model_dir params_file train_data eval_data
                  train_steps eval_steps batch_size preprocess cache_data
                  shuffle_buffer regen_dress
                  {| st_heap := h; st_log := st_log s |} in
              (match r with Ok _ => Ok VNone | Raise e => Raise e end, s'))
     end) ∧
  (∀ md pf td ed ts es bs pre cd sb rd zts zes zbs zsb s,
     md ≠ "--" → pf ≠ "--" → td ≠ "--" → ed ≠ "--" →
     pre ≠ "--" → cd ≠ "--" → rd ≠ "--" →
     py_int ts = Some zts → py_int es = Some zes →
     py_int bs = Some zbs → py_int sb = Some zsb →
     main ext (full_argv md pf td ed ts es bs pre cd sb rd) s =
       (let (r, s') :=
          trainner ext (VStr md) (VStr pf) (VStr td) (VStr ed)
            (VInt zts) (VInt zes) (VInt zbs) (VBool (py_bool pre))
            (VBool (py_bool cd)) (VInt zsb) (VBool (py_bool rd)) s in
        (match r with Ok _ => Ok VNone | Raise e => Raise e end, s'))).
Proof.
  split.
  - intros argv s.
    destruct (parse_args parser argv (st_heap s)) as [[args h]|e] eqn:Hp.
    + split; [by eapply parse_args_heap|].
      destruct (parse_attrs _ _ _ _ "model_dir" _ Hp eq_refl) as [v1 H1].
      destruct (parse_attrs _ _ _ _ "params_file" _ Hp eq_refl) as [v2 H2].
      destruct (parse_attrs _ _ _ _ "train_data" _ Hp eq_refl) as [v3 H3].
      destruct (parse_attrs _ _ _ _ "eval_data" _ Hp eq_refl) as [v4 H4].
      destruct (parse_attrs _ _ _ _ "train_steps" _ Hp eq_refl) as [v5 H5].
      destruct (parse_attrs _ _ _ _ "eval_steps" _ Hp eq_refl) as [v6 H6].
      destruct (parse_attrs _ _ _ _ "batch_size" _ Hp eq_refl) as [v7 H7].
      destruct (parse_attrs _ _ _ _ "preprocess" _ Hp eq_refl) as [v8 H8].
      destruct (parse_attrs _ _ _ _ "cache_data" _ Hp eq_refl) as [v9 H9].
      destruct (parse_attrs _ _ _ _ "shuffle_buffer" _ Hp eq_refl) as [v10 H10].
      destruct (parse_attrs _ _ _ _ "regen_dress" _ Hp eq_refl) as [v11 H11].
      exists v1, v2, v3, v4, v5, v6, v7, v8, v9, v10, v11.
      repeat (split; [done|]). by eapply main_parsed.
    + unfold main, m_parse_args, mbind, M_bind. by rewrite Hp.
  - intros md pf td ed ts es bs pre cd sb rd zts zes zbs zsb s
      Hmd Hpf Htd Hed Hpre Hcd Hrd Hts Hes Hbs Hsb.
    rewrite (main_parsed _ _ (st_heap s) (VStr md) (VStr pf) (VStr td) (VStr ed)
               (VInt zts) (VInt zes) (VInt zbs) (VBool (py_bool pre))
               (VBool (py_bool cd)) (VInt zsb) (VBool (py_bool rd)) s
               (parse_full md pf td ed ts es bs pre cd sb rd zts zes zbs zsb
                  (st_heap s) Hmd Hpf Htd Hed Hpre Hcd Hrd Hts Hes Hbs Hsb)
               eq_refl eq_refl eq_refl eq_refl eq_refl eq_refl eq_refl eq_refl
               eq_refl eq_refl eq_refl).
    by destruct s.
Qed.

End MainFacts.

Module MainToyFacts.
Import Toy.

Lemma main_forwards_witness :
  py_int "1000" = Some 1000 ∧ py_int "100" = Some 100 ∧
  py_int "50" = Some 50 ∧ py_int " 1_0 " = Some 10 ∧
  main toy (full_argv "my_model" "params.yml" "train.yml" "test.yml"
              "1000" "100" "50" "False" "" " 1_0 " "no")
       {| st_heap := []; st_log := [] |} =
    (let (r, s') :=
       trainner toy (VStr "my_model") (VStr "params.yml") (VStr "train.yml")
         (VStr "test.yml") (VInt 1000) (VInt 100) (VInt 50) (VBool true)
         (VBool false) (VInt 10) (VBool true)
         {| st_heap := []; st_log := [] |} in
     (match r with Ok _ => Ok VNone | Raise e => Raise e end, s')).
Proof.
  repeat (split; [reflexivity|]).
  destruct (main_forwards toy) as [_ Hfull].
  exact (Hfull "my_model" "params.yml" "train.yml" "test.yml"
           "1000" "100" "50" "False" "" " 1_0 " "no" 1000 100 50 10 _
           ltac:(discriminate) ltac:(discriminate) ltac:(discriminate)
           ltac:(discriminate) ltac:(discriminate) ltac:(discriminate)
           ltac:(discriminate)
           eq_refl eq_refl eq_refl eq_refl).
Defined.

End MainToyFacts.

(** ** The orchestrator: failures and what is called *)

Section TrainerEdges.
Context {source model train_spec eval_spec : Type}.
Variable ext : @externals source model train_spec eval_spec.

Ltac run_M :=
  unfold run, trainner, mbind, M_bind, m_call_new, m_setitem, m_read, m_call,
    m_alloc, m_pure, mret, M_ret; simpl.

(** X1.  When the parameter file cannot be loaded, [trainner] raises the
    loader's exception; it has called nothing else and the store is as
    it was. *)
Theorem trainner_load_failure md pf td ed ts es bs pre cd sb rd h e :
  yaml_load ext pf h = Raise e →
  run (trainner ext md pf td ed ts es bs pre cd sb rd) h =
    (Raise e, {| st_heap := h; st_log := [Call_yaml_load pf] |}).
Proof. intros Hy. run_M. by rewrite Hy. Qed.

(** X2.  When what was loaded is not a dictionary, [trainner] raises
    [TypeError] on writing [model_dir]; no data is loaded and no model is
    built. *)
Theorem trainner_not_a_record md pf td ed ts es bs pre cd sb rd h objs root :
  yaml_load ext pf h = Ok (objs, root) →
  (∀ a d, root = VRef a → (h ++ objs) !! a ≠ Some (ODict d)) →
  run (trainner ext md pf td ed ts es bs pre cd sb rd) h =
    (Raise TypeError,
     {| st_heap := h ++ objs; st_log := [Call_yaml_load pf] |}).
Proof.
  intros Hy Hnd. run_M. rewrite Hy. simpl.
  assert (py_setitem (h ++ objs) root "model_dir" md = Raise TypeError) as ->.
  { unfold py_setitem. destruct root; try done.
    destruct ((h ++ objs) !! a) as [[d|l]|] eqn:Ha; try done.
    by destruct (Hnd a d eq_refl). }
  done.
Qed.

(** X3.  With a true flag, a record without [model_params] makes
    [trainner] raise [KeyError] before anything is built; with a false
    flag [model_params] is not read, and the record reaches
    [potential_model] whatever else it holds. *)
Theorem trainner_model_params_needed md pf td ed ts es bs pre cd sb rd h
    objs root h1 :
  yaml_load ext pf h = Ok (objs, VRef root) →
  py_setitem (h ++ objs) (VRef root) "model_dir" md = Ok h1 →
  (py_truthy h1 rd = true →
   field (h ++ objs) root (KStr "model_params") = None →
   run (trainner ext md pf td ed ts es bs pre cd sb rd) h =
     (Raise (KeyError (KStr "model_params")),
      {| st_heap := h1; st_log := [Call_yaml_load pf] |})) ∧
  (py_truthy h1 rd = false →
   ∃ rest,
     st_log (snd (run (trainner ext md pf td ed ts es bs pre cd sb rd) h)) =
       Call_yaml_load pf :: Call_potential_model (VRef root) h1 :: rest).
Proof.
  intros Hy Hs. split.
  - intros Ht Hnone. run_M. rewrite Hy. simpl. rewrite Hs. simpl.
    rewrite Ht. simpl.
    assert (py_getitem h1 (VRef root) "model_params"
            = Raise (KeyError (KStr "model_params"))) as ->; [|done].
    assert (Hf : field h1 root (KStr "model_params") = None).
    { rewrite (field_setitem_ne _ _ _ _ _ _ _ Hs); [done|congruence]. }
    apply py_setitem_Ok in Hs as (a & d & ? & Hd & ->). simplify_eq.
    unfold py_getitem, field in *.
    destruct (<[a:=_]> (h ++ objs) !! a) as [[d'|l]|] eqn:E.
    + by rewrite Hf.
    + rewrite list_lookup_insert_eq in E by (by eapply lookup_lt_Some). done.
    + rewrite list_lookup_insert_eq in E by (by eapply lookup_lt_Some). done.
  - intros Ht. run_M. rewrite Hy. simpl. rewrite Hs. simpl.
    rewrite Ht. simpl.
    repeat (case_match; simplify_eq; simpl in * ); eauto.
Qed.

(** X4.  With a true flag, when [e_dress] is configured but is not a
    dictionary (an empty entry, a number, a list), [trainner] raises
    [AttributeError] for [keys]; the training data is not loaded and no
    model is built. *)
Theorem trainner_dress_not_a_mapping md pf td ed ts es bs pre cd sb rd h
    objs root h1 mp v :
  yaml_load ext pf h = Ok (objs, root) →
  py_setitem (h ++ objs) root "model_dir" md = Ok h1 →
  py_truthy h1 rd = true →
  py_getitem h1 root "model_params" = Ok (VRef mp) →
  field h1 mp (KStr "e_dress") = Some v →
  (∀ a d, v = VRef a → h1 !! a ≠ Some (ODict d)) →
  run (trainner ext md pf td ed ts es bs pre cd sb rd) h =
    (Raise (AttributeError "keys"),
     {| st_heap := h1; st_log := [Call_yaml_load pf] |}).
Proof.
  intros Hy Hs Ht Hmp Hf Hnd. run_M. rewrite Hy. simpl. rewrite Hs. simpl.
  rewrite Ht. simpl. rewrite Hmp. simpl.
  assert (py_contains h1 "e_dress" (VRef mp) = Ok true) as ->.
  { unfold py_contains, field in *.
    destruct (h1 !! mp) as [[d|l]|]; try done.
    rewrite Hf. by rewrite bool_decide_eq_true_2. }
  simpl. rewrite Hmp. simpl.
  assert (py_getitem h1 (VRef mp) "e_dress" = Ok v) as ->.
  { apply py_getitem_Ok. eauto. }
  simpl.
  assert (py_keys h1 v = Raise (AttributeError "keys")) as ->; [|done].
  unfold py_keys. destruct v; try done.
  destruct (h1 !! a) as [[d|l]|] eqn:Ha; try done.
  by destruct (Hnd a d eq_refl).
Qed.

(** X5.  When regeneration applies and loading the training data or
    computing the dress fails, the exception propagates and
    [potential_model] is never called; [model_dir] has been written, every
    [e_dress] entry is as loaded. *)
Theorem trainner_dress_failure md pf td ed ts es bs pre cd sb rd h
    objs root h1 mp aed ded e :
  yaml_load ext pf h = Ok (objs, root) →
  py_setitem (h ++ objs) root "model_dir" md = Ok h1 →
  py_truthy h1 rd = true →
  py_getitem h1 root "model_params" = Ok (VRef mp) →
  field h1 mp (KStr "e_dress") = Some (VRef aed) →
  h1 !! aed = Some (ODict ded) →
  let hc := h1 ++ [OList (map key_val (dict_keys ded))] in
  (load_tfrecord ext td = Raise e ∨
   ∃ src, load_tfrecord ext td = Ok src ∧
          get_atomic_dress ext (Dataset src []) (VRef (List.length h1)) hc
            = Raise e) →
  ∃ log,
    run (trainner ext md pf td ed ts es bs pre cd sb rd) h =
      (Raise e, {| st_heap := hc; st_log := log |}) ∧
    (∀ p hp, Call_potential_model p hp ∉ log) ∧
    (∀ a, field hc a (KStr "e_dress") = field h1 a (KStr "e_dress")).
Proof.
  intros Hy Hs Ht Hmp Hf Haed hc Hfail.
  assert (Hframe : ∀ a, field hc a (KStr "e_dress") = field h1 a (KStr "e_dress")).
  { intros a. unfold hc, field.
    destruct (decide (a < List.length h1)%nat) as [Hlt|Hge].
    - by rewrite lookup_app_l.
    - rewrite lookup_app_r by lia. rewrite (lookup_ge_None_2 h1) by lia.
      by destruct (a - List.length h1)%nat. }
  run_M. rewrite Hy. simpl. rewrite Hs. simpl. rewrite Ht. simpl.
  rewrite Hmp. simpl.
  assert (py_contains h1 "e_dress" (VRef mp) = Ok true) as ->.
  { unfold py_contains, field in *.
    destruct (h1 !! mp) as [[d|l]|]; try done.
    rewrite Hf. by rewrite bool_decide_eq_true_2. }
  simpl. rewrite Hmp. simpl.
  assert (py_getitem h1 (VRef mp) "e_dress" = Ok (VRef aed)) as ->.
  { apply py_getitem_Ok. eauto. }
  simpl.
  assert (py_keys h1 (VRef aed) = Ok (dict_keys ded)) as ->.
  { apply py_keys_Ok. eauto. }
  simpl. destruct Hfail as [Hl | (src & Hl & Hg)].
  - rewrite Hl. simpl. eexists. split; [reflexivity|]. split; [|done].
    intros p hp Hin.
    repeat (apply elem_of_cons in Hin as [Hin|Hin]; [discriminate|]).
    by apply elem_of_nil in Hin.
  - rewrite Hl. simpl. fold hc. rewrite Hg. simpl.
    eexists. split; [reflexivity|]. split; [|done].
    intros p hp Hin.
    repeat (apply elem_of_cons in Hin as [Hin|Hin]; [discriminate|]).
    by apply elem_of_nil in Hin.
Qed.

(** X6.  The calls of a run.  The first call loads the parameter file.
    [trainner] itself loads a tfrecord only from the training data (for the
    dress), never from the evaluation data: the two dataset functions are
    only handed over.  A run that returns has made, in this order: the load
    of the parameter file, the two dress calls or none, [potential_model],
    [TrainSpec], [EvalSpec], and [train_and_evaluate] on the store that
    [potential_model] saw. *)
Theorem trainner_calls md pf td ed ts es bs pre cd sb rd h r s' :
  run (trainner ext md pf td ed ts es bs pre cd sb rd) h = (r, s') →
  (∃ rest, st_log s' = Call_yaml_load pf :: rest) ∧
  (∀ f, Call_load_tfrecord f ∈ st_log s' → f = td) ∧
  (∀ v, r = Ok v →
     ∃ dress_calls p hp m ts' es',
       st_log s' =
         Call_yaml_load pf :: dress_calls ++
         [ Call_potential_model p hp;
           Call_TrainSpec (train_fn ext p bs pre cd sb td) ts;
           Call_EvalSpec (eval_fn ext p bs pre cd ed) es;
           Call_train_and_evaluate m ts' es' hp ] ∧
       (dress_calls = [] ∨
        ∃ src elems hc,
          dress_calls = [ Call_load_tfrecord td;
                          Call_get_atomic_dress (Dataset src []) elems hc ])).
Proof.
  unfold trainner. intros Hrun.
  unfold run, mbind, M_bind, m_call_new, m_setitem, m_read, m_call, m_alloc,
    m_pure, mret, M_ret in Hrun; simpl in Hrun.
  repeat (case_match; simplify_eq; simpl in * ).
  all: split; [by eexists|].
  all: split;
    [ intros f Hin;
      repeat (apply elem_of_cons in Hin as [Hin|Hin]; [by simplify_eq|]);
      by apply elem_of_nil in Hin
    | intros v Hv; simplify_eq ].
  all: first
    [ by (exists []; eexists _, _, _, _, _; split; [reflexivity|]; left)
    | by (eexists [_; _]; eexists _, _, _, _, _; split; [reflexivity|];
          right; eexists _, _, _) ].
Qed.

(** X7.  Failures of a dataset function that come from its own lines.
    When loading the file raises, [_dataset_fn] raises the same exception.
    When preprocessing is on and the record has no [network], or names a
    network that [pinn.networks] does not have, no dataset is returned,
    and with no batch size given (nothing is done between the load and the
    lookup) the exception is the one of the lookup, [AttributeError] for
    the name in the second case.  With preprocessing off the record is not
    read: the result is the same for any record. *)
Theorem _dataset_fn_raises params bs pre cd fname h e :
  (load_tfrecord ext fname = Raise e →
   _dataset_fn ext params bs pre cd fname h = Raise e) ∧
  (∀ src, load_tfrecord ext fname = Ok src →
     py_truthy h pre = true →
     (py_getitem h params "network" = Raise e ∨
      ∃ name, py_getitem h params "network" = Ok (VStr name) ∧
              networks_attr ext name = None ∧ e = AttributeError name) →
     (∀ d, _dataset_fn ext params bs pre cd fname h ≠ Ok d) ∧
     (bs = VNone → _dataset_fn ext params bs pre cd fname h = Raise e)) ∧
  (py_truthy h pre = false →
   ∀ params', _dataset_fn ext params' bs pre cd fname h =
              _dataset_fn ext params bs pre cd fname h).
Proof.
  unfold _dataset_fn, mbind, result_bind. split; [|split].
  - by intros ->.
  - intros src -> -> [Hg | (name & Hg & Hn & ->)]; rewrite Hg; [done|].
    rewrite Hn. done.
  - by intros ->.
Qed.

(** X8.  Batching is decided by [is not None], caching by truth value.
    So in a dataset that [_dataset_fn] returns, a batch size other than
    [None], also one that is false as a truth value (0, [False], an empty
    string), has put the batching stage first; and a cache flag that is
    false as a truth value has added no caching stage. *)
Theorem _dataset_fn_flags params bs pre cd fname h :
  (∀ d, _dataset_fn ext params bs pre cd fname h = Ok d →
        bs ≠ VNone → ∃ stages, ds_pipeline d = SparseBatch bs :: stages) ∧
  (∀ d, _dataset_fn ext params bs pre cd fname h = Ok d →
        py_truthy h cd = false → Forall (λ t, t ≠ Cache) (ds_pipeline d)).
Proof.
  split.
  - intros d Hd Hbs. apply _dataset_fn_spec in Hd as (src & prep & _ & _ & ->).
    simpl. destruct bs; try done; simpl; by eexists.
  - intros d Hd Hcd. apply _dataset_fn_spec in Hd as (src & prep & _ & Hp & ->).
    simpl. unfold caching_stage. rewrite Hcd, app_nil_r.
    apply Forall_app_2.
    + destruct bs; repeat constructor; done.
    + unfold preprocessing_stage in Hp. destruct (py_truthy h pre).
      * destruct Hp as (? & ? & _ & _ & ->). repeat constructor; done.
      * subst. constructor.
Qed.

End TrainerEdges.

Module EdgeToyFacts.
Import Toy.

Lemma trainner_load_failure_witness :
  yaml_load toy (VStr "missing.yml") [] = Raise (OtherError "NotFoundError") ∧
  run (trainner toy (VStr "my_model") (VStr "missing.yml") (VStr "train.yml")
         (VStr "test.yml") (VInt 1000) (VInt 100) VNone (VBool false)
         (VBool true) (VInt 100) (VBool true)) [] =
    (Raise (OtherError "NotFoundError"),
     {| st_heap := []; st_log := [Call_yaml_load (VStr "missing.yml")] |}).
Proof.
  split; [reflexivity|]. apply trainner_load_failure. reflexivity.
Defined.

(** An empty parameter file: PyYAML gives [None]. *)
Lemma trainner_not_a_record_witness :
  yaml_load (toy_with_yaml [] VNone) (VStr "params.yml") [] = Ok ([], VNone) ∧
  toy_run_with [] VNone (VStr "train.yml") (VBool true) =
    (Raise TypeError,
     {| st_heap := []; st_log := [Call_yaml_load (VStr "params.yml")] |}).
Proof.
  split; [reflexivity|].
  apply (trainner_not_a_record (toy_with_yaml [] VNone) _ _ _ _ _ _ _ _ _ _ _
           [] [] VNone eq_refl).
  intros a d Ha. discriminate Ha.
Defined.

Lemma trainner_model_params_needed_witness :
  toy_run_with bare_record VNone (VStr "train.yml") (VBool true) =
    (Raise (KeyError (KStr "model_params")),
     {| st_heap := bare_record_dir;
        st_log := [Call_yaml_load (VStr "params.yml")] |}) ∧
  ∃ rest,
    st_log (snd (toy_run_with bare_record VNone (VStr "train.yml") (VBool false))) =
      Call_yaml_load (VStr "params.yml") ::
      Call_potential_model (VRef 0%nat) bare_record_dir :: rest.
Proof.
  split.
  - refine (proj1 (trainner_model_params_needed (toy_with_yaml bare_record VNone)
              _ _ _ _ _ _ _ _ _ _ (VBool true) [] bare_record 0%nat
              bare_record_dir eq_refl eq_refl) eq_refl eq_refl).
  - refine (proj2 (trainner_model_params_needed (toy_with_yaml bare_record VNone)
              _ _ _ _ _ _ _ _ _ _ (VBool false) [] bare_record 0%nat
              bare_record_dir eq_refl eq_refl) eq_refl).
Defined.

Lemma trainner_dress_not_a_mapping_witness :
  field null_dress_record_dir 1 (KStr "e_dress") = Some VNone ∧
  toy_run_with null_dress_record VNone (VStr "train.yml") (VBool true) =
    (Raise (AttributeError "keys"),
     {| st_heap := null_dress_record_dir;
        st_log := [Call_yaml_load (VStr "params.yml")] |}).
Proof.
  split; [reflexivity|].
  apply (trainner_dress_not_a_mapping (toy_with_yaml null_dress_record VNone)
           _ _ _ _ _ _ _ _ _ _ (VBool true) [] null_dress_record (VRef 0%nat)
           null_dress_record_dir 1%nat VNone
           eq_refl eq_refl eq_refl eq_refl eq_refl).
  intros a d Ha. discriminate Ha.
Defined.

Lemma trainner_dress_failure_witness :
  load_tfrecord toy VNone = Raise TypeError ∧
  ∃ log,
    run (trainner toy (VStr "my_model") (VStr "params.yml") VNone
           (VStr "test.yml") (VInt 1000) (VInt 100) VNone (VBool false)
           (VBool true) (VInt 100) (VBool true)) [] =
      (Raise TypeError,
       {| st_heap := toy_record_dir ++ [OList [VInt 1]]; st_log := log |}) ∧
    (∀ p hp, Call_potential_model p hp ∉ log).
Proof.
  split; [reflexivity|].
  destruct (trainner_dress_failure toy (VStr "my_model") (VStr "params.yml")
              VNone (VStr "test.yml") (VInt 1000) (VInt 100) VNone (VBool false)
              (VBool true) (VInt 100) (VBool true) [] _ (VRef 0%nat)
              toy_record_dir 2%nat 3%nat [(KInt 1, VFloat (Q2Qc (1 # 2)))]
              TypeError eq_refl eq_refl eq_refl eq_refl eq_refl eq_refl
              (or_introl eq_refl)) as (log & Hrun & Hno & _).
  exists log. split; [exact Hrun|exact Hno].
Defined.

Lemma trainner_calls_witness :
  ∃ src elems hc p hp m ts' es',
    st_log (snd (toy_run (VBool true))) =
      [ Call_yaml_load (VStr "params.yml");
        Call_load_tfrecord (VStr "train.yml");
        Call_get_atomic_dress (Dataset src []) elems hc;
        Call_potential_model p hp;
        Call_TrainSpec (train_fn toy p VNone (VBool false) (VBool true)
                          (VInt 100) (VStr "train.yml")) (VInt 1000);
        Call_EvalSpec (eval_fn toy p VNone (VBool false) (VBool true)
                         (VStr "test.yml")) (VInt 100);
        Call_train_and_evaluate m ts' es' hp ].
Proof.
  destruct (trainner_calls toy (VStr "my_model") (VStr "params.yml")
              (VStr "train.yml") (VStr "test.yml") (VInt 1000) (VInt 100)
              VNone (VBool false) (VBool true) (VInt 100) (VBool true)
              [] _ _ (surjective_pairing _)) as (_ & _ & Hok).
  destruct (Hok VNone eq_refl)
    as (dress_calls & p & hp & m & ts' & es' & Hlog & Hdress).
  destruct Hdress as [-> | (src & elems & hc & ->)].
  - exfalso. change (st_log (toy_run (VBool true)).2) with
      (st_log (snd (toy_run (VBool true)))) in Hlog.
    vm_compute in Hlog. discriminate Hlog.
  - exists src, elems, hc, p, hp, m, ts', es'. exact Hlog.
Defined.

Lemma _dataset_fn_raises_witness :
  (∀ d, _dataset_fn toy (VRef 0%nat) (VInt 50) (VBool true) (VBool true)
          (VStr "train.yml") unknown_network_record ≠ Ok d) ∧
  _dataset_fn toy (VRef 0%nat) VNone (VBool true) (VBool true)
    (VStr "train.yml") unknown_network_record = Raise (AttributeError "nope") ∧
  _dataset_fn toy (VRef 0%nat) VNone (VBool false) (VBool true)
    (VStr "train.yml") unknown_network_record =
    Ok {| ds_source := "train.yml"; ds_pipeline := [Cache] |}.
Proof.
  assert (Hn : py_getitem unknown_network_record (VRef 0%nat) "network" =
               Raise (AttributeError "nope") ∨
               ∃ name, py_getitem unknown_network_record (VRef 0%nat) "network" =
                         Ok (VStr name) ∧
                       networks_attr toy name = None ∧
                       AttributeError "nope" = AttributeError name).
  { right. exists "nope". repeat split; reflexivity. }
  split; [|split; [|reflexivity]].
  - destruct (_dataset_fn_raises toy (VRef 0%nat) (VInt 50) (VBool true)
                (VBool true) (VStr "train.yml") unknown_network_record
                (AttributeError "nope")) as (_ & H & _).
    exact (proj1 (H "train.yml" eq_refl eq_refl Hn)).
  - destruct (_dataset_fn_raises toy (VRef 0%nat) VNone (VBool true)
                (VBool true) (VStr "train.yml") unknown_network_record
                (AttributeError "nope")) as (_ & H & _).
    exact (proj2 (H "train.yml" eq_refl eq_refl Hn) eq_refl).
Defined.

Lemma _dataset_fn_flags_witness :
  _dataset_fn toy (VRef 0%nat) (VInt 0) (VBool false) (VInt 0)
    (VStr "train.yml") [] =
    Ok {| ds_source := "train.yml"; ds_pipeline := [SparseBatch (VInt 0)] |} ∧
  VInt 0 ≠ VNone ∧
  ∃ stages, [SparseBatch (VInt 0)] = SparseBatch (VInt 0) :: stages.
Proof.
  split; [reflexivity|]. split; [discriminate|].
  destruct (_dataset_fn_flags toy (VRef 0%nat) (VInt 0) (VBool false) (VInt 0)
              (VStr "train.yml") []) as (H & _).
  exact (H {| ds_source := "train.yml"; ds_pipeline := [SparseBatch (VInt 0)] |}
           eq_refl ltac:(discriminate)).
Defined.

End EdgeToyFacts.

(** ** More on the command line *)

Module ArgparseMore.
Import ArgparseFacts.

(** A separator or an unknown option is always left over. *)
Lemma consume_leftover p toks st st' :
  consume p toks st = Ok st' →
  ps_extras st ≠ [] ∨ Exists is_leftover toks →
  ps_extras st' ≠ [].
Proof.
  revert toks st st'. apply (consume_ok_ind p (λ toks st st',
    ps_extras st ≠ [] ∨ Exists is_leftover toks → ps_extras st' ≠ [])).
  - intros st [H|H]; [done|]. by apply Exists_nil in H.
  - intros s c rest st st' _ _ IH _. apply IH. left. simpl.
    by destruct (ps_extras st).
  - intros s a o x rest st st1 st' _ Ht _ IH [H|H].
    + apply IH. left.
      apply take_action_Ok in Ht as (_ & ? & ? & ? & _ & _ & ->). done.
    + apply Exists_cons in H as [[]|H]. apply IH. by right.
  - intros s a o v rest st st1 st' _ Ht _ IH [H|H].
    + apply IH. left.
      apply take_action_Ok in Ht as (_ & ? & ? & ? & _ & _ & ->). done.
    + apply Exists_cons in H as [[]|H]. apply Exists_cons in H as [[]|H].
      apply IH. by right.
Qed.

(** Every action recorded as seen was selected by an option token. *)
Lemma consume_seen p toks st st' :
  consume p toks st = Ok st' →
  ∀ n, n ∈ ps_seen st' →
       n ∈ ps_seen st ∨
       ∃ s a o e, (s, Opt (Some a) o e) ∈ toks ∧ action_name a = n.
Proof.
  revert toks st st'. apply (consume_ok_ind p (λ toks st st',
    ∀ n, n ∈ ps_seen st' →
         n ∈ ps_seen st ∨
         ∃ s a o e, (s, Opt (Some a) o e) ∈ toks ∧ action_name a = n)).
  - intros st n H. by left.
  - intros s c rest st st' _ _ IH n H.
    destruct (IH n H) as [Hs|(s0 & a & o & e & Hin & Hn)]; [by left|].
    right. exists s0, a, o, e. split; [|done]. apply elem_of_cons. by right.
  - intros s a o x rest st st1 st' _ Ht _ IH n H.
    apply take_action_Ok in Ht as (_ & ? & ? & ? & _ & _ & ->).
    destruct (IH n H) as [Hs|(s0 & a0 & o0 & e0 & Hin & Hn)].
    + simpl in Hs. apply elem_of_cons in Hs as [->|Hs]; [|by left].
      right. exists s, a, o, (Some x). split; [|done]. apply elem_of_cons. by left.
    + right. exists s0, a0, o0, e0. split; [|done]. apply elem_of_cons. by right.
  - intros s a o v rest st st1 st' _ Ht _ IH n H.
    apply take_action_Ok in Ht as (_ & ? & ? & ? & _ & _ & ->).
    destruct (IH n H) as [Hs|(s0 & a0 & o0 & e0 & Hin & Hn)].
    + simpl in Hs. apply elem_of_cons in Hs as [->|Hs]; [|by left].
      right. exists s, a, o, None. split; [|done]. apply elem_of_cons. by left.
    + right. exists s0, a0, o0, e0. split; [|done].
      do 2 (apply elem_of_cons; right). done.
Qed.

Lemma parse_args_seen p argv h ns h' :
  parse_args p argv h = Ok (ns, h') →
  ∃ toks st,
    classify p argv = Ok toks ∧
    consume p toks {| ps_namespace := defaults p; ps_seen := [];
                      ps_extras := []; ps_heap := h |} = Ok st ∧
    missing_required p (ps_seen st) = false.
Proof.
  unfold parse_args, mbind, result_bind.
  destruct (classify p argv) as [toks|]; [|done].
  destruct (consume p toks _) as [st|] eqn:Hc; [|done].
  destruct (missing_required p (ps_seen st)) eqn:Hm; [done|].
  intros _. by exists toks, st.
Qed.

Lemma parser_selects_model_dir s a o e :
  _parse_optional parser s = Ok (Some (Some a, o, e)) →
  action_name a = "--model-dir" → String.prefix "--m" s = true.
Proof. intros H Hd. selects_tac H Hd. Qed.

Lemma parser_selects_params_file s a o e :
  _parse_optional parser s = Ok (Some (Some a, o, e)) →
  action_name a = "--params-file" → String.prefix "--pa" s = true.
Proof. intros H Hd. selects_tac H Hd. Qed.

Lemma parser_selects_train_data s a o e :
  _parse_optional parser s = Ok (Some (Some a, o, e)) →
  action_name a = "--train-data" → String.prefix "--train-d" s = true.
Proof. intros H Hd. selects_tac H Hd. Qed.

Lemma parser_selects_eval_data s a o e :
  _parse_optional parser s = Ok (Some (Some a, o, e)) →
  action_name a = "--eval-data" → String.prefix "--eval-d" s = true.
Proof. intros H Hd. selects_tac H Hd. Qed.

Lemma parser_selects_train_steps s a o e :
  _parse_optional parser s = Ok (Some (Some a, o, e)) →
  action_name a = "--train-steps" → String.prefix "--train-s" s = true.
Proof. intros H Hd. selects_tac H Hd. Qed.

#[local] Arguments String.eqb : simpl never.

Lemma required_seen n argv h ns h' :
  parse_args parser argv h = Ok (ns, h') →
  n ∈ [ "--model-dir"; "--params-file"; "--train-data"; "--eval-data";
        "--train-steps" ] →
  ∃ s a o e, s ∈ argv ∧ _parse_optional parser s = Ok (Some (Some a, o, e)) ∧
             action_name a = n.
Proof.
  intros (toks & st & Hcl & Hco & Hm)%parse_args_seen Hn.
  assert (Hseen : n ∈ ps_seen st).
  { unfold missing_required, parser in Hm. simpl in Hm.
    repeat (apply orb_false_elim in Hm as [? Hm]).
    cbn [action_name add_argument option_strings] in *.
    repeat (apply elem_of_cons in Hn as [->|Hn];
            [ match goal with
              | H : negb (existsb (String.eqb ?x) _) = false |- ?x ∈ _ =>
                  apply negb_false_iff, existsb_exists in H as (y & Hy & ->%String.eqb_eq);
                  by apply list_elem_of_In
              end |]).
    by apply elem_of_nil in Hn. }
  destruct (consume_seen _ _ _ _ Hco n Hseen) as [H|(s & a & o & e & Hin & Ha)].
  { by apply elem_of_nil in H. }
  destruct (classify_tokens _ _ _ Hcl _ _ Hin) as [Hs [?|[?|(oo & Hp & Hc)]]];
    try done.
  destruct oo as [[[a' o'] e']|]; [|done]. simpl in Hc. simplify_eq.
  eexists _, _, _, _. eauto.
Qed.

(** X9.  Required options are enforced: every accepted command line has
    an argument string that selects each of [--model-dir],
    [--params-file], [--train-data], [--eval-data] and [--train-steps],
    that is, one that starts with the shortest prefix unique to it. *)
Theorem accepted_has_required argv h ns h' :
  parse_args parser argv h = Ok (ns, h') →
  Forall (λ m, ∃ s, s ∈ argv ∧ String.prefix m s = true)
    [ "--m"; "--pa"; "--train-d"; "--eval-d"; "--train-s" ].
Proof.
  intros Hp.
  repeat apply Forall_cons_2; [..|constructor].
  - destruct (required_seen "--model-dir" _ _ _ _ Hp) as (s & a & o & e & Hs & H & Ha);
      [repeat first [by apply elem_of_cons; left | apply elem_of_cons; right]|].
    exists s. split; [done|]. by eapply parser_selects_model_dir.
  - destruct (required_seen "--params-file" _ _ _ _ Hp) as (s & a & o & e & Hs & H & Ha);
      [repeat first [by apply elem_of_cons; left | apply elem_of_cons; right]|].
    exists s. split; [done|]. by eapply parser_selects_params_file.
  - destruct (required_seen "--train-data" _ _ _ _ Hp) as (s & a & o & e & Hs & H & Ha);
      [repeat first [by apply elem_of_cons; left | apply elem_of_cons; right]|].
    exists s. split; [done|]. by eapply parser_selects_train_data.
  - destruct (required_seen "--eval-data" _ _ _ _ Hp) as (s & a & o & e & Hs & H & Ha);
      [repeat first [by apply elem_of_cons; left | apply elem_of_cons; right]|].
    exists s. split; [done|]. by eapply parser_selects_eval_data.
  - destruct (required_seen "--train-steps" _ _ _ _ Hp) as (s & a & o & e & Hs & H & Ha);
      [repeat first [by apply elem_of_cons; left | apply elem_of_cons; right]|].
    exists s. split; [done|]. by eapply parser_selects_train_steps.
Qed.

(** X10.  The last value wins and is converted by the option's type.
    On an accepted command line that gives a stored option a value
    (attached with [=], or as the next argument string) anywhere on the
    line, with no later argument string selecting the option, whatever was
    given for the option earlier: when the value is not [--], the
    namespace holds for that option the string itself for a [str] option,
    the integer that [int] reads for an [int] option (so the value reads
    as an integer), and [bool] of the string for a [bool] option; when the
    value is [--], the namespace holds a new empty list, whatever the
    type. *)
Theorem last_value_converted o a before v after h ns h' :
  (o, a) ∈ option_table parser → kind a = Store →
  parse_args parser (before ++ String.append o (String "=" v) :: after) h
    = Ok (ns, h') ∨
  parse_args parser (before ++ o :: v :: after) h = Ok (ns, h') →
  (∀ s', s' ∈ after → ¬ selects parser s' (dest a)) →
  if String.eqb v "--" then
    ∃ k, getattr ns (dest a) = Ok (VRef k) ∧ (List.length h <= k)%nat ∧
         h' !! k = Some (OList []) ∧ py_truthy h' (VRef k) = false
  else
    match type_ a with
    | TStr => getattr ns (dest a) = Ok (VStr v)
    | TInt => ∃ z, py_int v = Some z ∧ getattr ns (dest a) = Ok (VInt z)
    | TBool => getattr ns (dest a) = Ok (VBool (py_bool v))
    end.
Proof.
  intros Ho Hk Hparse Hlater. by eapply parse_given.
Qed.

Lemma classify_separator p argv toks :
  classify p argv = Ok toks → "--" ∈ argv → Exists is_leftover toks.
Proof.
  revert toks. induction argv as [|y l IH]; intros toks; simpl.
  - intros _ H. by apply elem_of_nil in H.
  - destruct (String.eqb y "--") eqn:Hy.
    + intros [= <-] _. by apply Exists_cons_hd.
    + unfold mbind, result_bind.
      destruct (_parse_optional p y) as [oy|]; [|done].
      destruct (classify p l) as [toks'|]; [|done].
      intros [= <-] Hin. apply elem_of_cons in Hin as [<-|Hin].
      * by rewrite String.eqb_refl in Hy.
      * apply Exists_cons_tl. by apply IH.
Qed.

(** X11.  What is never accepted: a command line that holds the
    separator [--], or an argument string that reads as an option the
    parser does not have.  The first example of the module's docstring is
    such a line, [--max-steps] being no option, and is rejected with
    status 2. *)
Theorem accepted_has_no_stranger argv h ns h' :
  parse_args parser argv h = Ok (ns, h') →
  (∀ s, s ∈ argv →
        s ≠ "--" ∧ _parse_optional parser s ≠ Ok (Some (None, s, None))) ∧
  _parse_optional parser "--max-steps=1e6" =
    Ok (Some (None, "--max-steps=1e6", None)) ∧
  parse_args parser docstring_argv h = Raise (SystemExit 2).
Proof.
  intros Hp. split; [|split; vm_compute; reflexivity].
  apply parse_args_inv in Hp as (toks & st & Hcl & Hco & Hex & -> & ->).
  assert (Hsep : "--" ∉ argv).
  { intros Hin. eapply consume_leftover; [exact Hco| |exact Hex].
    right. by eapply classify_separator. }
  intros s Hs. split; [by intros ->|]. intros Hunk.
  eapply consume_leftover; [exact Hco| |exact Hex]. right.
  clear Hco Hex. revert toks Hcl.
  induction argv as [|y l IH]; intros toks; simpl.
  { by apply elem_of_nil in Hs. }
  destruct (String.eqb y "--") eqn:Hy.
  { apply String.eqb_eq in Hy as ->. destruct Hsep. apply elem_of_cons. by left. }
  unfold mbind, result_bind.
  destruct (_parse_optional parser y) as [oy|] eqn:Hpy; [|done].
  destruct (classify parser l) as [toks'|]; [|done].
  intros [= <-]. apply elem_of_cons in Hs as [->|Hs].
  - rewrite Hunk in Hpy. simplify_eq. by apply Exists_cons_hd.
  - apply Exists_cons_tl. apply IH; [|done|done].
    intros Hin. apply Hsep. apply elem_of_cons. by right.
Qed.

Lemma accepted_has_required_witness :
  parse_args parser required_argv [] = Ok (required_ns false true true, []) ∧
  Forall (λ m, ∃ s, s ∈ required_argv ∧ String.prefix m s = true)
    [ "--m"; "--pa"; "--train-d"; "--eval-d"; "--train-s" ].
Proof.
  split; [exact required_parse_4|].
  exact (accepted_has_required _ _ _ _ required_parse_4).
Defined.

Lemma required_parse_5 :
  parse_args parser
    (required_argv ++ ["--train-steps"; "-7"; "--eval-steps=5"]) [] =
    Ok (setattr (setattr (required_ns false true true) "train_steps" (VInt (-7)))
          "eval_steps" (VInt 5), []).
Proof. vm_compute. reflexivity. Qed.

Lemma required_parse_6 :
  parse_args parser
    ("--model-dir=--" :: "--batch-size=--" :: required_argv) [] =
    Ok (setattr (required_ns false true true) "batch_size" (VRef 1%nat),
        [OList []; OList []]).
Proof. vm_compute. reflexivity. Qed.

Lemma last_value_converted_witness :
  kind (add_argument "--train-steps" TInt true VNone) = Store ∧
  (∃ z, py_int "-7" = Some z ∧
        getattr (setattr (setattr (required_ns false true true) "train_steps"
                            (VInt (-7))) "eval_steps" (VInt 5))
          "train_steps" = Ok (VInt z)) ∧
  (∃ k, getattr (setattr (required_ns false true true) "batch_size" (VRef 1%nat))
          "batch_size" = Ok (VRef k) ∧
        (List.length (@nil obj) <= k)%nat ∧
        [OList []; OList []] !! k = Some (OList []) ∧
        py_truthy [OList []; OList []] (VRef k) = false).
Proof.
  split; [reflexivity|]. split.
  - refine (last_value_converted "--train-steps"
              (add_argument "--train-steps" TInt true VNone) required_argv "-7"
              ["--eval-steps=5"] _ _ _ _ eq_refl (or_intror required_parse_5) _).
    + unfold parser, option_table; simpl.
      repeat first [ by apply elem_of_cons; left | apply elem_of_cons; right ].
    + intros s' Hin (a' & o' & e' & Hp & Hd).
      apply elem_of_cons in Hin as [->|Hin]; [|by apply elem_of_nil in Hin].
      vm_compute in Hp. injection Hp as <- _ _. discriminate.
  - refine (last_value_converted "--batch-size"
              (add_argument "--batch-size" TInt false VNone)
              ["--model-dir=--"] "--" required_argv _ _ _ _ eq_refl
              (or_introl required_parse_6) _).
    + unfold parser, option_table; simpl.
      repeat first [ by apply elem_of_cons; left | apply elem_of_cons; right ].
    + intros s' Hin (a' & o' & e' & Hp & Hd). unfold required_argv in Hin.
      repeat (apply elem_of_cons in Hin as [->|Hin];
              [vm_compute in Hp; injection Hp as <- _ _; discriminate|]).
      by apply elem_of_nil in Hin.
Defined.

Lemma accepted_has_no_stranger_witness :
  parse_args parser required_argv [] = Ok (required_ns false true true, []) ∧
  (∀ s, s ∈ required_argv → s ≠ "--") ∧
  parse_args parser docstring_argv [] = Raise (SystemExit 2).
Proof.
  split; [exact required_parse_4|].
  destruct (accepted_has_no_stranger _ _ _ _ required_parse_4) as (Hno & _ & Hdoc).
  split; [|exact Hdoc]. intros s Hs. exact (proj1 (Hno s Hs)).
Defined.

Lemma take_action_raises a args st e :
  take_action a args st = Raise e →
  e = SystemExit 2 ∨ (e = SystemExit 0 ∧ kind a = Help).
Proof.
  unfold take_action. destruct (kind a) eqn:Hk.
  - destruct args as [|s [|]]; try (intros [= <-]; by left).
    unfold mbind, result_bind, _get_values.
    destruct (String.eqb s "--"); [done|].
    unfold mbind, result_bind, convert.
    destruct (type_ a); simpl; try done.
    destruct (py_int s); [done|]. intros [= <-]. by left.
  - destruct args; intros [= <-]; [by right|by left].
Qed.

Lemma take_actions_raises acts : ∀ st e,
  take_actions acts st = Raise e →
  e = SystemExit 2 ∨
  (e = SystemExit 0 ∧ ∃ a args, (a, args) ∈ acts ∧ kind a = Help).
Proof.
  induction acts as [|[a args] acts IH]; intros st e; simpl; [done|].
  unfold mbind, result_bind.
  destruct (take_action a args st) as [st1|e1] eqn:Ht.
  - intros Hr. destruct (IH _ _ Hr) as [?|(-> & a' & args' & Hin & Hk)];
      [by left|].
    right. split; [done|]. exists a', args'. split; [|done].
    apply elem_of_cons. by right.
  - intros [= <-]. destruct (take_action_raises _ _ _ _ Ht) as [?|[-> Hk]];
      [by left|].
    right. split; [done|]. exists a, args. split; [|done].
    apply elem_of_cons. by left.
Qed.

Lemma cluster_raises tbl x : ∀ a o e,
  cluster tbl a o x = Raise e → e = SystemExit 2.
Proof.
  induction x as [|c x IH]; intros a o e; simpl.
  - destruct (second_is_dash o); by intros [= <-].
  - destruct (second_is_dash o); [by intros [= <-]|].
    destruct (find_option _ _) as [a'|]; [|by intros [= <-]].
    destruct x as [|c' x']; [done|].
    destruct (kind a'); [done|].
    unfold mbind, result_bind.
    destruct (cluster tbl a' _ (String c' x')) as [[l pend]|] eqn:Hc; [done|].
    intros [= <-]. by eapply IH.
Qed.

Lemma resolve_raises p a o x e :
  resolve p a o x = Raise e → e = SystemExit 2.
Proof.
  unfold resolve. destruct x as [x|]; [|by destruct (kind a)].
  destruct (kind a); [done|]. unfold mbind, result_bind.
  destruct (cluster _ a o x) as [[l pend]|] eqn:Hc.
  - destruct pend as [a'|]; [by destruct (kind a')|done].
  - intros [= <-]. by eapply cluster_raises.
Qed.

(** Only the token of a help option leads to a help action, and an
    action left waiting for its argument is a stored one. *)
Lemma resolve_kinds p a o x acts pend :
  resolve p a o x = Ok (acts, pend) →
  ((∃ a' args, (a', args) ∈ acts ∧ kind a' = Help) → kind a = Help) ∧
  (∀ a', pend = Some a' → kind a' = Store).
Proof.
  unfold resolve. destruct (kind a) eqn:Hk.
  - destruct x as [x|]; intros ?; simplify_eq.
    + split; [|done]. intros (a' & args & Hin & Hk').
      apply list_elem_of_singleton in Hin. simplify_eq. congruence.
    + split; [|by intros ? [= <-]]. intros (a' & args & Hin & Hk').
      by apply elem_of_nil in Hin.
  - intros Hr. split; [done|]. intros a' ->.
    destruct x as [x|]; [|done]. unfold mbind, result_bind in Hr.
    destruct (cluster _ a o x) as [[l [a''|]]|]; try done.
    destruct (kind a'') eqn:Hk''; by simplify_eq.
Qed.

(** A pass ends the process with status 2, or with status 0 on an option
    token whose action is the help. *)
Lemma consume_raises p toks st e :
  consume p toks st = Raise e →
  e = SystemExit 2 ∨
  (e = SystemExit 0 ∧ ∃ s a o x, (s, Opt (Some a) o x) ∈ toks ∧ kind a = Help).
Proof.
  assert (H : ∀ n toks, (List.length toks < n)%nat → ∀ st e,
    consume p toks st = Raise e →
    e = SystemExit 2 ∨
    (e = SystemExit 0 ∧ ∃ s a o x, (s, Opt (Some a) o x) ∈ toks ∧ kind a = Help)).
  { clear toks st e. induction n as [|n IH]; [intros; lia|].
    assert (Hstep : ∀ t rest st e,
      (List.length rest < n)%nat →
      consume p rest st = Raise e →
      e = SystemExit 2 ∨
      (e = SystemExit 0 ∧
       ∃ s a o x, (s, Opt (Some a) o x) ∈ t ++ rest ∧ kind a = Help)).
    { intros t rest st e Hlen Hc.
      destruct (IH rest Hlen st e Hc) as [?|(-> & s & a & o & x & Hin & Hk)];
        [by left|].
      right. split; [done|]. exists s, a, o, x. split; [|done].
      apply elem_of_app. by right. }
    intros [|[s c] rest] Hlen st e Hc; [done|]. simpl in Hlen.
    destruct c as [| |[a|] o x];
      try (simpl in Hc; apply (Hstep [_] rest _ _ ltac:(lia) Hc)).
    simpl in Hc.
    destruct (resolve p a o x) as [[acts pend]|e'] eqn:Hr;
      [|simplify_eq; left; by eapply resolve_raises].
    destruct (resolve_kinds _ _ _ _ _ _ Hr) as [Hhelp Hpend].
    assert (Hacts : ∀ l st0,
      take_actions l st0 = Raise e →
      (∀ a' args, (a', args) ∈ l → kind a' = Help → kind a = Help) →
      e = SystemExit 2 ∨
      (e = SystemExit 0 ∧
       ∃ s' a' o' x', (s', Opt (Some a') o' x') ∈ (s, Opt (Some a) o x) :: rest ∧
                      kind a' = Help)).
    { intros l st0 Ht Hl.
      destruct (take_actions_raises _ _ _ Ht) as [?|(-> & a' & args & Hin & Hk)];
        [by left|].
      right. split; [done|]. exists s, a, o, x. split; [|by eapply Hl].
      apply elem_of_cons. by left. }
    destruct pend as [a'|].
    - destruct rest as [|[v c] rest']; [simplify_eq; by left|].
      destruct c; try (simplify_eq; by left).
      unfold mbind, result_bind in Hc.
      destruct (take_actions _ st) as [st1|e1] eqn:Ht.
      + apply (Hstep [_; _] rest' _ _ ltac:(simpl in *; lia) Hc).
      + simplify_eq. eapply Hacts; [exact Ht|].
        intros a'' args Hin Hk. apply elem_of_app in Hin as [Hin|Hin].
        * apply Hhelp. eauto.
        * apply list_elem_of_singleton in Hin. simplify_eq.
          rewrite (Hpend _ eq_refl) in Hk. done.
    - unfold mbind, result_bind in Hc.
      destruct (take_actions acts st) as [st1|e1] eqn:Ht.
      + apply (Hstep [_] rest _ _ ltac:(lia) Hc).
      + simplify_eq. eapply Hacts; [exact Ht|].
        intros a'' args Hin Hk. apply Hhelp. eauto. }
  apply (H (S (List.length toks))). lia.
Qed.

Lemma _parse_optional_raises p s e :
  _parse_optional p s = Raise e → e = SystemExit 2.
Proof.
  unfold _parse_optional. intros H.
  repeat case_match; by simplify_eq.
Qed.

Lemma classify_raises p l : ∀ e,
  classify p l = Raise e → e = SystemExit 2.
Proof.
  induction l as [|y l IH]; intros e; simpl; [done|].
  destruct (String.eqb y "--"); [done|]. unfold mbind, result_bind.
  destruct (_parse_optional p y) as [oy|e1] eqn:Hp.
  - destruct (classify p l) as [toks|e2]; [done|].
    intros [= <-]. by apply IH.
  - intros [= <-]. by eapply _parse_optional_raises.
Qed.

(** The argument strings that select the help of the parser start with
    [-h] or [--h]. *)
Lemma parser_selects_help s a o e :
  _parse_optional parser s = Ok (Some (Some a, o, e)) →
  kind a = Help →
  String.prefix "-h" s || String.prefix "--h" s = true.
Proof.
  intros H Hk.
  apply _parse_optional_action in H as [(Hf & -> & ->) | [(? & Hs & Hf & ->) | Ht]].
  - apply find_option_Some in Hf. unfold parser, option_table in Hf.
    simpl in Hf. table_cases Hf; done.
  - apply find_option_Some in Hf. apply split_eq_Some in Hs as ->.
    unfold parser, option_table in Hf. simpl in Hf. table_cases Hf; done.
  - assert (Hin : In (Some a, o, e) (_get_option_tuples parser s))
      by (rewrite Ht; by left).
    apply option_tuple_in in Hin as [Htbl Hpre].
    unfold parser, option_table in Htbl. simpl in Htbl.
    table_cases Htbl; try done; unfold _get_option_tuples in Ht.
    + destruct (second_is_dash s) eqn:Hsd.
      * destruct (split_eq s) as [[? ?]|] eqn:Hs;
          [apply split_eq_Some in Hs as ->|];
          prefix_cases Hpre; try done; vm_compute in Ht; discriminate.
      * destruct Hpre as [Hpre|Hpre].
        -- apply String.eqb_eq in Hpre.
           destruct s as [|c1 [|c2 s2]]; simpl in Hpre; simplify_eq.
           by destruct s2.
        -- prefix_cases Hpre; try done; vm_compute in Ht; discriminate.
    + destruct (second_is_dash s) eqn:Hsd.
      * destruct (split_eq s) as [[? ?]|] eqn:Hs;
          [apply split_eq_Some in Hs as ->|];
          prefix_cases Hpre; try done; vm_compute in Ht; discriminate.
      * destruct Hpre as [Hpre|Hpre].
        -- apply String.eqb_eq in Hpre.
           destruct s as [|c1 [|c2 s2]]; simpl in Hpre; discriminate.
        -- prefix_cases Hpre; try done; vm_compute in Ht; discriminate.
Qed.

(** X12.  When [parser.parse_args] of [main] ends the process, the exit
    status is 2, or it is 0 and some argument string starts with [-h] or
    [--h]: nothing but a request for help leaves with status 0, and no
    other exception comes out of the parser. *)
Theorem parser_exit_status argv h e :
  parse_args parser argv h = Raise e →
  e = SystemExit 2 ∨
  (e = SystemExit 0 ∧
   ∃ s, s ∈ argv ∧ String.prefix "-h" s || String.prefix "--h" s = true).
Proof.
  unfold parse_args, mbind, result_bind.
  destruct (classify parser argv) as [toks|e1] eqn:Hcl;
    [|intros [= <-]; left; by eapply classify_raises].
  destruct (consume parser toks _) as [st|e1] eqn:Hc.
  - destruct (missing_required parser (ps_seen st)); [intros [= <-]; by left|].
    destruct (ps_extras st); [done|]. intros [= <-]. by left.
  - intros [= <-].
    destruct (consume_raises _ _ _ _ Hc) as [?|(-> & s & a & o & x & Hin & Hk)];
      [by left|].
    right. split; [done|]. exists s.
    destruct (classify_tokens _ _ _ Hcl _ _ Hin) as [Hs [?|[?|(oo & Hp & Hco)]]];
      [done..|].
    split; [done|]. destruct oo as [[[a0 o0] x0]|]; [|done].
    simpl in Hco. simplify_eq. by eapply parser_selects_help.
Qed.

Lemma parser_exit_status_witness :
  parse_args parser ["--train-steps=1e6"; "--he"] [] = Raise (SystemExit 2) ∧
  parse_args parser ("--he" :: required_argv) [] = Raise (SystemExit 0) ∧
  (SystemExit 0 = SystemExit 2 ∨
   (SystemExit 0 = SystemExit 0 ∧
    ∃ s, s ∈ "--he" :: required_argv ∧
         String.prefix "-h" s || String.prefix "--h" s = true)).
Proof.
  assert (H1 : parse_args parser ["--train-steps=1e6"; "--he"] [] =
               Raise (SystemExit 2)) by (vm_compute; reflexivity).
  assert (H2 : parse_args parser ("--he" :: required_argv) [] =
               Raise (SystemExit 0)) by (vm_compute; reflexivity).
  split; [exact H1|]. split; [exact H2|].
  exact (parser_exit_status _ _ _ H2).
Defined.

End ArgparseMore.
